(** * Credit ledger and admission control of the crawling engine

    A shallow embedding of the classes [CreditService] and [RateLimiter]
    over a functional model of the Redis commands they issue, of the
    routes, the middleware and the crawl that call them, and of the
    summary sent with a crawl, followed by their properties.

    Conventions.
    - The keys of the ledger are a fixed prefix followed by an identifier,
      so each prefix is a map of its own, keyed by the identifier. The keys
      of the limiter, which expire, are kept as the strings they are.
    - The client is @upstash/redis ([createRedisClient]): [get] of a missing
      key is [null], [hgetall] of a missing hash is [null], numeric values
      come back as numbers. [hgetall] hands every field of a hash to
      [JSON.parse] and keeps the text as it is only when that fails; what
      a text field comes back as, printed, is the parameter [parsed] of
      the methods that read a hash. [zadd] takes its members as objects
      [{ score, member }].
    - Credits are integers ([incrby]/[decrby] accept nothing else): [Z].
    - The costs are computed in doubles: [F64] rounds every operation to
      53 significant bits.
    - [Date.now()] is an input of every call that reads the clock, in
      milliseconds. [Date.now().toString()] is injective, so a transaction
      id is modelled by the number it prints.
    - A thrown [Error] is a [Throw] result; the store that comes with it is
      the store at the moment of the throw. *)

From Stdlib Require Import ZArith QArith Qround Qminmax Lia Lqa.
From stdpp Require Import gmap strings pretty list fin_maps.

Open Scope Z_scope.

(** ** Results of the async methods *)

Inductive Error :=
  | InsufficientCredits      (* new Error('Insufficient credits') *)
  | ReservationNotFound      (* new Error('Reservation not found') *)
  | UserRateLimit            (* new Error('User rate limit exceeded') *)
  | DomainRateLimit          (* new Error('Domain rate limit exceeded') *)
  | TooManyConcurrent        (* new Error('Too many concurrent requests for this domain') *)
  | TypeError (msg : string). (* a TypeError raised by the runtime, with its message *)

Inductive Result (A : Type) :=
  | Ok (a : A)
  | Throw (e : Error).
Arguments Ok {A} a.
Arguments Throw {A} e.

(** ** Redis commands on one key family *)

Module Redis.

(** INCRBY / DECRBY: a missing key counts as 0. *)
Definition incrby (k : string) (n : Z) (m : gmap string Z) : gmap string Z :=
  <[k := default 0 (m !! k) + n]> m.

Definition decrby (k : string) (n : Z) (m : gmap string Z) : gmap string Z :=
  <[k := default 0 (m !! k) - n]> m.

(** LPUSH: the new element becomes the head of the list. *)
Definition lpush {A} (k : string) (x : A) (m : gmap string (list A))
  : gmap string (list A) :=
  <[k := x :: default [] (m !! k)]> m.

(** LRANGE on the stored list: negative indices count from the tail, the
    range is inclusive and clipped to the list. *)
Definition lrange_list {A} (l : list A) (start stop : Z) : list A :=
  let llen := Z.of_nat (length l) in
  let start := if start <? 0 then llen + start else start in
  let stop := if stop <? 0 then llen + stop else stop in
  let start := if start <? 0 then 0 else start in
  if (stop <? start) || (llen <=? start) then []
  else
    let stop := if llen <=? stop then llen - 1 else stop in
    take (Z.to_nat (stop - start + 1)) (drop (Z.to_nat start) l).

Definition lrange {A} (k : string) (start stop : Z) (m : gmap string (list A))
  : list A :=
  lrange_list (default [] (m !! k)) start stop.

(** What [hgetall] gives back for the text fields that occur in the
    examples of this file: ["1e2"] is JSON for the number 100, every other
    one is not JSON and comes back as it is. *)
Definition parsed_example (v : string) : string :=
  if String.eqb v "1e2" then "100" else v.

End Redis.

(** ** CreditService *)

Module Credit.

Inductive TxType := TxAdd | TxDeduct.

(** The hash stored under [credit_tx:<txId>]. *)
Record Transaction := {
  tx_userId : string;
  tx_amount : Z;
  tx_type : TxType;
  tx_reason : string;
  tx_timestamp : Z
}.

(** The hash stored under [credit_reservation:<operationId>]. *)
Record Reservation := {
  rv_userId : string;
  rv_amount : Z;
  rv_timestamp : Z
}.

Record Store := {
  credits : gmap string Z;                      (* credits:<userId> *)
  credit_tx : gmap Z Transaction;               (* credit_tx:<txId> *)
  credit_history : gmap string (list Z);        (* credit_history:<userId> *)
  credit_reservation : gmap string Reservation  (* credit_reservation:<operationId> *)
}.

Definition empty_store : Store :=
  {| credits := ∅; credit_tx := ∅; credit_history := ∅; credit_reservation := ∅ |}.

Section Client.

(** [parsed v] is what a text field stored as [v] comes back as from
    [hgetall], printed: the text of [JSON.parse(v)] when [v] is JSON, and
    [v] itself when it is not. *)
Variable parsed : string → string.

(** The hashes as [hgetall] returns them. The amounts and the timestamps
    are numbers and come back as the numbers stored; [type] is never JSON. *)
Definition read_transaction (tx : Transaction) : Transaction :=
  {| tx_userId := parsed (tx_userId tx); tx_amount := tx_amount tx;
     tx_type := tx_type tx; tx_reason := parsed (tx_reason tx);
     tx_timestamp := tx_timestamp tx |}.

Definition read_reservation (rv : Reservation) : Reservation :=
  {| rv_userId := parsed (rv_userId rv); rv_amount := rv_amount rv;
     rv_timestamp := rv_timestamp rv |}.

(** [parseInt(balance) || 0]: a missing key reads [null], which parses to
    [NaN] and falls to 0; a stored integer reads as itself. *)
Definition getBalance (s : Store) (userId : string) : Z :=
  default 0 (credits s !! userId).

(** The three commands of the add pipeline. [txId] is [Date.now()]. *)
Definition addCredits (now : Z) (userId : string) (amount : Z) (reason : string)
    (s : Store) : Result Z * Store :=
  let txId := now in
  (Ok txId,
   {| credits := Redis.incrby userId amount (credits s);
      credit_tx :=
        <[txId := {| tx_userId := userId; tx_amount := amount; tx_type := TxAdd;
                     tx_reason := reason; tx_timestamp := now |}]> (credit_tx s);
      credit_history := Redis.lpush userId txId (credit_history s);
      credit_reservation := credit_reservation s |}).

(** The pipeline of [deductCredits], run once the balance check passed. *)
Definition deduct_pipeline (now : Z) (userId : string) (amount : Z) (reason : string)
    (s : Store) : Store :=
  let txId := now in
  {| credits := Redis.decrby userId amount (credits s);
     credit_tx :=
       <[txId := {| tx_userId := userId; tx_amount := - amount; tx_type := TxDeduct;
                    tx_reason := reason; tx_timestamp := now |}]> (credit_tx s);
     credit_history := Redis.lpush userId txId (credit_history s);
     credit_reservation := credit_reservation s |}.

Definition deductCredits (now : Z) (userId : string) (amount : Z) (reason : string)
    (s : Store) : Result Z * Store :=
  let balance := getBalance s userId in
  if balance <? amount then (Throw InsufficientCredits, s)
  else (Ok now, deduct_pipeline now userId amount reason s).

(** [lrange(key, 0, limit - 1)], then one [hgetall] per id; an id whose
    hash is gone yields the id alone. *)
Definition getTransactionHistory (userId : string) (limit : Z) (s : Store)
  : list (Z * option Transaction) :=
  let txIds := Redis.lrange userId 0 (limit - 1) (credit_history s) in
  match txIds with
  | [] => []
  | _ => map (fun txId => (txId, read_transaction <$> credit_tx s !! txId)) txIds
  end.

(** Cost calculation, over the rationals: what the code computes when no
    operation rounds. The same code over doubles is [F64.calculateCrawlCost]
    below. *)
Definition calculateCrawlCost (pages depth customChecks : Q) : Z :=
  let cost := pages in
  let cost :=
    if negb (Qle_bool depth 1) then (cost * (1 + (depth - 1) * (1 # 2)))%Q else cost in
  let cost := (cost + customChecks * 2)%Q in
  Qceiling cost.

Definition calculateRecheckCost (issueCount : Q) : Z :=
  Qceiling (issueCount * (1 # 2))%Q.

(** The pipeline of [reserveCredits], run once the balance check passed. *)
Definition reserve_pipeline (now : Z) (userId : string) (amount : Z)
    (operationId : string) (s : Store) : Store :=
  {| credits := Redis.decrby userId amount (credits s);
     credit_tx := credit_tx s;
     credit_history := credit_history s;
     credit_reservation :=
       <[operationId := {| rv_userId := userId; rv_amount := amount;
                           rv_timestamp := now |}]> (credit_reservation s) |}.

Definition reserveCredits (now : Z) (userId : string) (amount : Z)
    (operationId : string) (s : Store) : Result unit * Store :=
  let balance := getBalance s userId in
  if balance <? amount then (Throw InsufficientCredits, s)
  else (Ok tt, reserve_pipeline now userId amount operationId s).

(** The pipeline of [releaseReservation], run once the reservation is
    found: the refund when the operation failed, then the [del].
    [reservation] is the object [hgetall] returned; the refund goes to
    [`credits:${reservation.userId}`]. *)
Definition release_pipeline (operationId : string) (success : bool)
    (reservation : Reservation) (s : Store) : Store :=
  {| credits :=
       if negb success
       then Redis.incrby (rv_userId reservation) (rv_amount reservation) (credits s)
       else credits s;
     credit_tx := credit_tx s;
     credit_history := credit_history s;
     credit_reservation := delete operationId (credit_reservation s) |}.

Definition releaseReservation (operationId : string) (success : bool) (s : Store)
  : Result unit * Store :=
  match read_reservation <$> credit_reservation s !! operationId with
  | None => (Throw ReservationNotFound, s)
  | Some reservation => (Ok tt, release_pipeline operationId success reservation s)
  end.

(** *** Sequences of ledger calls *)

Inductive Call :=
  | AddCredits (userId : string) (amount : Z) (reason : string)
  | DeductCredits (userId : string) (amount : Z) (reason : string)
  | Reserve (userId : string) (amount : Z) (operationId : string)
  | ReleaseReservation (operationId : string) (success : bool).

(** One call, made when the clock reads [now]; the result is dropped. *)
Definition exec (c : Z * Call) (s : Store) : Store :=
  match c with
  | (now, AddCredits u a r) => snd (addCredits now u a r s)
  | (now, DeductCredits u a r) => snd (deductCredits now u a r s)
  | (now, Reserve u a op) => snd (reserveCredits now u a op s)
  | (_, ReleaseReservation op ok) => snd (releaseReservation op ok s)
  end.

Definition run (cs : list (Z * Call)) (s : Store) : Store :=
  fold_left (fun s c => exec c s) cs s.




(** The sum of the amounts of the transactions listed in a user's
    history, each looked up under its id. *)
Definition tx_delta (s : Store) (txId : Z) : Z :=
  match credit_tx s !! txId with Some tx => tx_amount tx | None => 0 end.

Definition tx_sum (s : Store) (userId : string) : Z :=
  foldr (fun txId acc => tx_delta s txId + acc) 0
        (default [] (credit_history s !! userId)).

(** *** Interleaved execution

    An async method runs without interruption up to its next [await];
    there another caller may run. [deductCredits] and [reserveCredits]
    await [getBalance] and then the pipeline, [releaseReservation] awaits
    [hgetall] and then the pipeline, [addCredits] awaits its pipeline
    only. A pipeline is taken to run as a whole. *)

Inductive Pc :=
  | AtStart                              (* nothing awaited yet *)
  | HasBalance (balance : Z)             (* [getBalance] has answered *)
  | HasReservation (r : Reservation)     (* [hgetall] has answered *)
  | Finished (e : option Error).         (* returned, or thrown [e] *)

(** The next segment of a call, from one await to the next. *)
Definition step (c : Z * Call) (pc : Pc) (s : Store) : Pc * Store :=
  match pc, c with
  | AtStart, (now, AddCredits u a r) =>
      (Finished None, snd (addCredits now u a r s))
  | AtStart, (_, DeductCredits u _ _) => (HasBalance (getBalance s u), s)
  | AtStart, (_, Reserve u _ _) => (HasBalance (getBalance s u), s)
  | AtStart, (_, ReleaseReservation op _) =>
      match read_reservation <$> credit_reservation s !! op with
      | None => (Finished (Some ReservationNotFound), s)
      | Some r => (HasReservation r, s)
      end
  | HasBalance balance, (now, DeductCredits u a r) =>
      if balance <? a then (Finished (Some InsufficientCredits), s)
      else (Finished None, deduct_pipeline now u a r s)
  | HasBalance balance, (now, Reserve u a op) =>
      if balance <? a then (Finished (Some InsufficientCredits), s)
      else (Finished None, reserve_pipeline now u a op s)
  | HasReservation r, (_, ReleaseReservation op ok) =>
      (Finished None, release_pipeline op ok r s)
  | _, _ => (pc, s)
  end.

(** The callers in flight, each with its call and its position. *)
Definition sched_step (i : nat) (p : list ((Z * Call) * Pc) * Store)
  : list ((Z * Call) * Pc) * Store :=
  match fst p !! i with
  | Some (c, pc) =>
      let '(pc', s') := step c pc (snd p) in (<[i := (c, pc')]> (fst p), s')
  | None => p
  end.

(** A schedule names, segment after segment, the caller that runs. *)
Definition interleave (sched : list nat) (p : list ((Z * Call) * Pc) * Store)
  : list ((Z * Call) * Pc) * Store :=
  fold_left (fun p i => sched_step i p) sched p.

Definition start (cs : list (Z * Call)) (s : Store)
  : list ((Z * Call) * Pc) * Store :=
  (map (fun c => (c, AtStart)) cs, s).

End Client.


(** *** The cost formulas in the words of the specification

    [ceil(pages * (1 + max(0, depth-1) * 0.5) + customChecks * 2)] and
    [ceil(issueCount * 0.5)], over the rationals. *)

Definition spec_CalculateCrawlCost (pages depth customChecks : Z) : Z :=
  Qceiling (inject_Z pages * (1 + Qmax 0 (inject_Z depth - 1) * (1 # 2))
            + inject_Z customChecks * 2)%Q.

Definition spec_CalculateRecheckCost (issueCount : Z) : Z :=
  Qceiling (inject_Z issueCount * (1 # 2))%Q.

End Credit.

(** ** The cost calculation over doubles *)

Module F64.

(** A double holds 53 significant bits. [round m] is the integer nearest
    to [m] among those with at most 53 significant bits, a tie going to
    the one whose last kept bit is 0: what an exact integer result [m]
    becomes when it is stored. Every number met in the cost calculation
    is a multiple of 1/2; one that is not an integer is kept as the number
    of its halves, which rounds the same way. Nothing here comes near the
    largest double. *)
Definition round (m : Z) : Z :=
  let a := Z.abs m in
  if a <? 2 ^ 53 then m
  else
    let e := Z.log2 a - 52 in
    let q := a / 2 ^ e in
    let r := a mod 2 ^ e in
    let half := 2 ^ (e - 1) in
    let q := if r <? half then q
             else if half <? r then q + 1
             else if Z.even q then q else q + 1 in
    Z.sgn m * (q * 2 ^ e).

(** [calculateCrawlCost(pages, depth, customChecks)] on integer
    arguments. [cost] is counted in halves. *)
Definition calculateCrawlCost (pages depth customChecks : Z) : Z :=
  let pages := round pages in
  let depth := round depth in
  let customChecks := round customChecks in
  let cost := 2 * pages in
  let cost :=
    if 1 <? depth then
      let d1 := round (depth - 1) in        (* [depth - 1] *)
      let f := round (2 + d1) in            (* [1 + (depth - 1) * 0.5], in halves *)
      round (pages * f)                     (* [cost * (...)], in halves *)
    else cost in
  let cost := round (cost + 2 * round (customChecks * 2)) in
  (cost + 1) / 2.                           (* [Math.ceil(cost)] *)

(** [calculateRecheckCost(issueCount)]: the product by 0.5 is exact. *)
Definition calculateRecheckCost (issueCount : Z) : Z :=
  let halves := round issueCount in
  (halves + 1) / 2.

(** The arguments on which no operation of [calculateCrawlCost] rounds. *)
Definition exact (pages depth customChecks : Z) : Prop :=
  depth + 1 < 2 ^ 53
  ∧ pages * (1 + Z.max 1 depth) + 4 * customChecks < 2 ^ 53.

End F64.

(** ** RateLimiter *)

Module Limiter.

(** [this.limits]; windows are in seconds. *)
Record Limits := {
  user_requests : Z;
  user_window : Z;
  domain_requests : Z;
  domain_window : Z;
  domain_concurrent : Z
}.

Definition default_limits : Limits :=
  {| user_requests := 100; user_window := 3600;
     domain_requests := 60; domain_window := 3600; domain_concurrent := 3 |}.

(** Sorted sets (member to score), plain sets, and the time, in
    milliseconds, at which a key with a time to live goes away. *)
Record Store := {
  zsets : gmap string (gmap string Z);
  sets : gmap string (gset string);
  expiry : gmap string Z
}.

Definition empty_store : Store := {| zsets := ∅; sets := ∅; expiry := ∅ |}.

Definition userKey (userId : string) : string := "ratelimit:user:" +:+ userId.
Definition domainKey (domain : string) : string := "ratelimit:domain:" +:+ domain.
Definition concurrentKey (domain : string) : string :=
  "ratelimit:concurrent:" +:+ domain.

(** *** The Redis commands used, run when the clock reads [t] ms.
    A key whose time has come is gone for every command; a write
    removes it for good before doing its work. A sorted set or set
    that loses its last member is removed with its time to live. *)

Definition expired (t : Z) (k : string) (s : Store) : bool :=
  match expiry s !! k with Some deadline => deadline <=? t | None => false end.

Definition del (k : string) (s : Store) : Store :=
  {| zsets := delete k (zsets s); sets := delete k (sets s);
     expiry := delete k (expiry s) |}.

Definition touch (t : Z) (k : string) (s : Store) : Store :=
  if expired t k s then del k s else s.

Definition zmembers (t : Z) (k : string) (s : Store) : gmap string Z :=
  if expired t k s then ∅ else default ∅ (zsets s !! k).

Definition smembers (t : Z) (k : string) (s : Store) : gset string :=
  if expired t k s then ∅ else default ∅ (sets s !! k).

Definition zcard (t : Z) (k : string) (s : Store) : Z :=
  Z.of_nat (size (zmembers t k s)).

Definition scard (t : Z) (k : string) (s : Store) : Z :=
  Z.of_nat (size (smembers t k s)).

Definition in_range (lo hi : Z) (p : string * Z) : Prop := lo ≤ p.2 ≤ hi.

#[global] Instance in_range_dec lo hi p : Decision (in_range lo hi p).
Proof. unfold in_range. apply _. Defined.

Definition zremrangebyscore (t : Z) (k : string) (lo hi : Z) (s : Store) : Store :=
  let s := touch t k s in
  match zsets s !! k with
  | None => s
  | Some z =>
      let z' := filter (fun p => ¬ in_range lo hi p) z in
      if decide (z' = ∅) then del k s
      else {| zsets := <[k := z']> (zsets s); sets := sets s; expiry := expiry s |}
  end.

Definition zadd (t : Z) (k : string) (score : Z) (member : string) (s : Store)
  : Store :=
  let s := touch t k s in
  {| zsets := <[k := <[member := score]> (default ∅ (zsets s !! k))]> (zsets s);
     sets := sets s; expiry := expiry s |}.

Definition sadd (t : Z) (k : string) (member : string) (s : Store) : Store :=
  let s := touch t k s in
  {| zsets := zsets s;
     sets := <[k := {[member]} ∪ default ∅ (sets s !! k)]> (sets s);
     expiry := expiry s |}.

Definition srem (t : Z) (k : string) (member : string) (s : Store) : Store :=
  let s := touch t k s in
  match sets s !! k with
  | None => s
  | Some X =>
      let X' := X ∖ {[member]} in
      if decide (X' = ∅) then del k s
      else {| zsets := zsets s; sets := <[k := X']> (sets s); expiry := expiry s |}
  end.

Definition exists_key (k : string) (s : Store) : bool :=
  bool_decide (is_Some (zsets s !! k)) || bool_decide (is_Some (sets s !! k)).

(** EXPIRE: no effect on a missing key; a time to live that is not
    positive removes the key at once. *)
Definition expire (t : Z) (k : string) (seconds : Z) (s : Store) : Store :=
  let s := touch t k s in
  if exists_key k s then
    if seconds <=? 0 then del k s
    else {| zsets := zsets s; sets := sets s;
            expiry := <[k := t + 1000 * seconds]> (expiry s) |}
  else s.

(** *** The methods *)

(** [Math.floor(Date.now() / 1000)] *)
Definition seconds (t : Z) : Z := t / 1000.

(** The purge of [isAllowed]: the first two commands of its pipeline. *)
Definition purge (t : Z) (lim : Limits) (userId domain : string) (s : Store)
  : Store :=
  let now := seconds t in
  let s := zremrangebyscore t (userKey userId) 0 (now - user_window lim) s in
  zremrangebyscore t (domainKey domain) 0 (now - domain_window lim) s.

Definition isAllowed (t : Z) (lim : Limits) (userId domain : string) (s : Store)
  : Result bool * Store :=
  let s := purge t lim userId domain s in
  let userCount := zcard t (userKey userId) s in
  let domainCount := zcard t (domainKey domain) s in
  let concurrentCount := scard t (concurrentKey domain) s in
  if user_requests lim <=? userCount then (Throw UserRateLimit, s)
  else if domain_requests lim <=? domainCount then (Throw DomainRateLimit, s)
  else if domain_concurrent lim <=? concurrentCount then (Throw TooManyConcurrent, s)
  else (Ok true, s).

(** [`${userId}:${now}:${Math.random()}`]; [rnd] is the text of the
    number [Math.random()] returned. *)
Definition requestId (userId : string) (now : Z) (rnd : string) : string :=
  userId +:+ ":" +:+ pretty now +:+ ":" +:+ rnd.

(** *** [zadd] as the client takes it

    [zadd(key, ...)] of @upstash/redis takes its members as objects
    [{ score, member }]. To build the command it tells a member from the
    options by testing ["score" in arg] on the first argument after the
    key; on a value that is not an object the [in] operator throws a
    [TypeError], whose message ends with the value. The command is then
    never built. *)
Inductive ZaddArg :=
  | ZNumber (n : Z)
  | ZText (v : string)
  | ZScoreMember (score : Z) (member : string).

Definition in_operator_message (v : string) : string :=
  "Cannot use 'in' operator to search for 'score' in " +:+ v.

Definition client_zadd (t : Z) (k : string) (args : list ZaddArg) (s : Store)
  : Result Store :=
  match args with
  | ZScoreMember score member :: rest =>
      Ok (foldl (fun s a =>
                   match a with
                   | ZScoreMember score member => zadd t k score member s
                   | _ => s
                   end) (zadd t k score member s) rest)
  | ZNumber n :: _ => Throw (TypeError (in_operator_message (pretty n)))
  | ZText v :: _ => Throw (TypeError (in_operator_message v))
  | [] => Throw (TypeError (in_operator_message "undefined"))
  end.

(** The pipeline is built command by command and sent by [exec]: when
    building a command throws, nothing has been sent. *)
Definition trackRequest (t : Z) (rnd : string) (lim : Limits)
    (userId domain : string) (s : Store) : Result string * Store :=
  let now := seconds t in
  let rid := requestId userId now rnd in
  match client_zadd t (userKey userId) [ZNumber now; ZText rid] s with
  | Throw e => (Throw e, s)
  | Ok s1 =>
      match client_zadd t (domainKey domain) [ZNumber now; ZText rid] s1 with
      | Throw e => (Throw e, s)
      | Ok s2 =>
          let s3 := sadd t (concurrentKey domain) rid s2 in
          let s4 := expire t (userKey userId) (user_window lim) s3 in
          let s5 := expire t (domainKey domain) (domain_window lim) s4 in
          let s6 := expire t (concurrentKey domain) 300 s5 in
          (Ok rid, s6)
      end
  end.

Definition completeRequest (t : Z) (domain rid : string) (s : Store) : Store :=
  srem t (concurrentKey domain) rid s.

(** Admission as the middleware performs it: [isAllowed], and when it
    returns, [trackRequest]; each reads the clock for itself. *)
Definition admission (t1 t2 : Z) (rnd : string) (lim : Limits)
    (userId domain : string) (s : Store) : Result string * Store :=
  match isAllowed t1 lim userId domain s with
  | (Throw e, s') => (Throw e, s')
  | (Ok _, s') => trackRequest t2 rnd lim userId domain s'
  end.

(** Two stores hold the same under the key [k]. *)
Definition same_at (k : string) (s s' : Store) : Prop :=
  zsets s' !! k = zsets s !! k ∧ sets s' !! k = sets s !! k
  ∧ expiry s' !! k = expiry s !! k.

End Limiter.

(** ** RateLimiter: metrics and limits *)

Module LimiterOps.
Import Limiter.

(** The object [getUserMetrics] returns. *)
Record UserMetrics := {
  um_limit : Z;
  um_remaining : Z;
  um_resetIn : Z
}.

(** The object [getDomainMetrics] returns; [concurrent] is flattened. *)
Record DomainMetrics := {
  dm_limit : Z;
  dm_remaining : Z;
  dm_resetIn : Z;
  dm_concurrent_current : Z;
  dm_concurrent_limit : Z
}.

(** [%] takes the sign of the dividend: [Z.rem]. *)
Definition getUserMetrics (t : Z) (lim : Limits) (userId : string) (s : Store)
  : UserMetrics * Store :=
  let now := seconds t in
  let s := zremrangebyscore t (userKey userId) 0 (now - user_window lim) s in
  let count := zcard t (userKey userId) s in
  ({| um_limit := user_requests lim;
      um_remaining := Z.max 0 (user_requests lim - count);
      um_resetIn := user_window lim - Z.rem now (user_window lim) |}, s).

Definition getDomainMetrics (t : Z) (lim : Limits) (domain : string) (s : Store)
  : DomainMetrics * Store :=
  let now := seconds t in
  let s := zremrangebyscore t (domainKey domain) 0 (now - domain_window lim) s in
  let count := zcard t (domainKey domain) s in
  let concurrentCount := scard t (concurrentKey domain) s in
  ({| dm_limit := domain_requests lim;
      dm_remaining := Z.max 0 (domain_requests lim - count);
      dm_resetIn := domain_window lim - Z.rem now (domain_window lim);
      dm_concurrent_current := concurrentCount;
      dm_concurrent_limit := domain_concurrent lim |}, s).

(** The argument of [setLimits]: either part may be missing, and so may
    each of its fields ([undefined > 0] is false). *)
Record NewUserLimits := {
  nu_requests : option Z;
  nu_window : option Z
}.

Record NewDomainLimits := {
  nd_requests : option Z;
  nd_window : option Z;
  nd_concurrent : option Z
}.

Record NewLimits := {
  nl_user : option NewUserLimits;
  nl_domain : option NewDomainLimits
}.

(** [v > 0] on a field that may be missing. *)
Definition gt0 (v : option Z) : bool :=
  match v with Some n => 0 <? n | None => false end.

Definition setLimits (newLimits : NewLimits) (lim : Limits) : Limits :=
  let lim :=
    match nl_user newLimits with
    | Some nu =>
        let lim :=
          if gt0 (nu_requests nu)
          then {| user_requests := default 0 (nu_requests nu);
                  user_window := user_window lim;
                  domain_requests := domain_requests lim;
                  domain_window := domain_window lim;
                  domain_concurrent := domain_concurrent lim |}
          else lim in
        if gt0 (nu_window nu)
        then {| user_requests := user_requests lim;
                user_window := default 0 (nu_window nu);
                domain_requests := domain_requests lim;
                domain_window := domain_window lim;
                domain_concurrent := domain_concurrent lim |}
        else lim
    | None => lim
    end in
  match nl_domain newLimits with
  | Some nd =>
      let lim :=
        if gt0 (nd_requests nd)
        then {| user_requests := user_requests lim;
                user_window := user_window lim;
                domain_requests := default 0 (nd_requests nd);
                domain_window := domain_window lim;
                domain_concurrent := domain_concurrent lim |}
        else lim in
      let lim :=
        if gt0 (nd_window nd)
        then {| user_requests := user_requests lim;
                user_window := user_window lim;
                domain_requests := domain_requests lim;
                domain_window := default 0 (nd_window nd);
                domain_concurrent := domain_concurrent lim |}
        else lim in
      if gt0 (nd_concurrent nd)
      then {| user_requests := user_requests lim;
              user_window := user_window lim;
              domain_requests := domain_requests lim;
              domain_window := domain_window lim;
              domain_concurrent := default 0 (nd_concurrent nd) |}
      else lim
  | None => lim
  end.

(** Every limit and window is positive. *)
Definition limits_positive (lim : Limits) : Prop :=
  0 < user_requests lim ∧ 0 < user_window lim
  ∧ 0 < domain_requests lim ∧ 0 < domain_window lim ∧ 0 < domain_concurrent lim.

(** *** Sequences of calls on one limiter *)

Inductive Call :=
  | IsAllowed (userId domain : string)
  | TrackRequest (rnd userId domain : string)
  | CompleteRequest (domain requestId : string)
  | GetUserMetrics (userId : string)
  | GetDomainMetrics (domain : string)
  | SetLimits (newLimits : NewLimits).

(** One call, made when the clock reads [t]; what it returns or throws
    is dropped. The state is [this.limits] and the store. *)
Definition exec (c : Z * Call) (st : Limits * Store) : Limits * Store :=
  let '(lim, s) := st in
  match c with
  | (t, IsAllowed u d) => (lim, (isAllowed t lim u d s).2)
  | (t, TrackRequest rnd u d) => (lim, (trackRequest t rnd lim u d s).2)
  | (t, CompleteRequest d rid) => (lim, completeRequest t d rid s)
  | (t, GetUserMetrics u) => (lim, (getUserMetrics t lim u s).2)
  | (t, GetDomainMetrics d) => (lim, (getDomainMetrics t lim d s).2)
  | (_, SetLimits newLimits) => (setLimits newLimits lim, s)
  end.

Definition run (cs : list (Z * Call)) (st : Limits * Store) : Limits * Store :=
  fold_left (fun st c => exec c st) cs st.

End LimiterOps.

(** ** The rate limiter middleware *)

Module Middleware.
Import Limiter LimiterOps.

(** [error.message] *)
Definition message (e : Error) : string :=
  match e with
  | InsufficientCredits => "Insufficient credits"
  | ReservationNotFound => "Reservation not found"
  | UserRateLimit => "User rate limit exceeded"
  | DomainRateLimit => "Domain rate limit exceeded"
  | TooManyConcurrent => "Too many concurrent requests for this domain"
  | TypeError msg => msg
  end.

(** [s.includes(sub)] *)
Fixpoint includes (sub s : string) : bool :=
  String.prefix sub s
  || match s with
     | EmptyString => false
     | String _ s' => includes sub s'
     end.

(** A value that may be missing is truthy when it is there and not empty. *)
Definition truthy (v : option string) : bool :=
  match v with
  | Some EmptyString | None => false
  | Some _ => true
  end.

(** What the middleware does with the request. *)
Inductive Outcome :=
  | Respond (status : Z) (error : string) (retryAfter : option Z)
  | NextError (e : Error)                                 (* [next(error)] *)
  | Next (headers : UserMetrics) (rid domain : string).   (* [next()] *)

(** [userId] is [req.body.userId || req.query.userId], [domain] the host
    name of [req.body.url] when a url is given, [path] is [req.path].
    The clock is read by [isAllowed], by [trackRequest] and by
    [getUserMetrics] in turn. *)
Definition rateLimiterMiddleware (t1 t2 t3 : Z) (rnd : string) (lim : Limits)
    (userId domain : option string) (path : string) (s : Store)
  : Outcome * Store :=
  let needsDomainCheck := includes "/crawl" path || includes "/recheck" path in
  let catch (e : Error) (s : Store) :=
    if includes "rate limit" (message e)
    then (Respond 429 (message e) (Some 3600), s)
    else (NextError e, s) in
  if negb (truthy userId) then (Respond 400 "User ID is required" None, s)
  else if needsDomainCheck && negb (truthy domain)
  then (Respond 400 "Valid URL is required" None, s)
  else
    let u := default "" userId in
    let d := if needsDomainCheck then default "" domain else "api" in
    match isAllowed t1 lim u d s with
    | (Throw e, s) => catch e s
    | (Ok _, s) =>
        match trackRequest t2 rnd lim u d s with
        | (Throw e, s) => catch e s
        | (Ok rid, s) =>
            let '(userMetrics, s) := getUserMetrics t3 lim u s in
            (Next userMetrics rid d, s)
        end
    end.

(** The handler registered on [finish]. *)
Definition onFinish (t : Z) (rid domain : string) (s : Store) : Store :=
  completeRequest t domain rid s.

End Middleware.

(** ** Routes that use the ledger *)

Module Routes.
Import Credit Middleware.

(** What a handler sends back: the success body, or a status with
    [error] set. *)
Inductive Reply (A : Type) :=
  | Success (data : A)
  | Failure (status : Z) (error : string).
Arguments Success {A} data.
Arguments Failure {A} status error.

(** What an awaited call of a collaborator comes to. *)
Inductive Try (A : Type) :=
  | Done (a : A)
  | Thrown (msg : string).
Arguments Done {A} a.
Arguments Thrown {A} msg.

Section Client.

(** What [hgetall] makes of a text field; see [Credit.read_reservation]. *)
Variable parsed : string → string.

(** GET /transactions/:userId. [limit] is what [parseInt(req.query.limit)]
    gives, [None] for [NaN]. *)
Definition transactionsRoute (userId : string) (limit : option Z) (s : Store)
  : Reply (list (Z * option Transaction)) :=
  let limit := match limit with
               | Some 0 | None => 10
               | Some n => n
               end in
  Success (getTransactionHistory parsed userId limit s).

(** The sequence both recheck handlers run once the cost is known: hold,
    work, keep the hold, deduct; on any throw after the hold, give the
    hold back and pass the error on; every error ends in a 500 with its
    message. [work] is what the recheck comes to. *)
Definition recheck_settle (now1 now2 : Z) (userId : string) (recheckCost : Z)
    (operationId reason : string) (work : Try unit) (s : Store)
  : Reply unit * Store :=
  match reserveCredits now1 userId recheckCost operationId s with
  | (Throw e, s) => (Failure 500 (message e), s)
  | (Ok _, s) =>
      let inner : Try unit * Store :=
        match work with
        | Thrown msg => (Thrown msg, s)
        | Done _ =>
            match releaseReservation parsed operationId true s with
            | (Throw e, s) => (Thrown (message e), s)
            | (Ok _, s) =>
                match deductCredits now2 userId recheckCost reason s with
                | (Throw e, s) => (Thrown (message e), s)
                | (Ok _, s) => (Done tt, s)
                end
            end
        end in
      match inner with
      | (Done _, s) => (Success tt, s)
      | (Thrown msg, s) =>
          match releaseReservation parsed operationId false s with
          | (Throw e, s) => (Failure 500 (message e), s)
          | (Ok _, s) => (Failure 500 msg, s)
          end
      end
  end.

(** POST /issues/:issueId *)
Definition recheckIssueRoute (now1 now2 : Z) (issueId : string)
    (url type userId : option string) (work : Try unit) (s : Store)
  : Reply unit * Store :=
  if negb (truthy url) || negb (truthy type) || negb (truthy userId)
  then (Failure 400 "Missing required parameters", s)
  else
    let recheckCost := calculateRecheckCost 1 in
    recheck_settle now1 now2 (default "" userId) recheckCost issueId
      ("Recheck: " +:+ default "" type) work s.

(** POST /url. [issues] is [None] when the body holds no array. *)
Definition recheckUrlRoute (now1 now2 : Z) (url : option string)
    (issues : option (list (string * string))) (userId : option string)
    (work : Try unit) (s : Store) : Reply unit * Store :=
  match issues with
  | Some issues =>
      if negb (truthy url) || negb (truthy userId)
      then (Failure 400 "Missing required parameters", s)
      else
        let recheckCost :=
          calculateRecheckCost (inject_Z (Z.of_nat (length issues))) in
        recheck_settle now1 now2 (default "" userId) recheckCost (default "" url)
          ("Bulk recheck: " +:+ default "" url) work s
  | None => (Failure 400 "Missing required parameters", s)
  end.

End Client.

(** The ids in the histories are ids of transactions of the same user. *)
Definition history_owned (s : Store) : Prop :=
  ∀ u txId, txId ∈ default [] (credit_history s !! u) →
    ∃ tx, credit_tx s !! txId = Some tx ∧ tx_userId tx = u.

End Routes.

(** ** WebhookService: the summary of the issues *)

Module Webhook.
Import Routes.

(** The names every object inherits from [Object.prototype]. *)
Definition prototype_member (k : string) : bool :=
  bool_decide (k ∈ ["constructor"; "__defineGetter__"; "__defineSetter__";
                    "hasOwnProperty"; "__lookupGetter__"; "__lookupSetter__";
                    "isPrototypeOf"; "propertyIsEnumerable"; "toString";
                    "valueOf"; "__proto__"; "toLocaleString"]).

(** A value met in the sums below: a number, or something that is not
    one (a function or an object of the prototype, or the text that [+]
    makes of it). *)
Inductive Value :=
  | Num (n : Z)
  | NotNum.

(** [weights[issue.severity] || 1] on the literal
    [{ low: 1, medium: 2, high: 3, critical: 5 }]: one of the four
    weights, for a name of the prototype the function or object found
    there, and 1 for any other severity. *)
Definition weight (severity : string) : Value :=
  if String.eqb severity "low" then Num 1
  else if String.eqb severity "medium" then Num 2
  else if String.eqb severity "high" then Num 3
  else if String.eqb severity "critical" then Num 5
  else if prototype_member severity then NotNum
  else Num 1.

(** [a + b]: a sum of numbers, and a concatenation of texts as soon as
    one side is not a number. *)
Definition plus (a b : Value) : Value :=
  match a, b with
  | Num x, Num y => Num (x + y)
  | _, _ => NotNum
  end.

(** A JavaScript number: a rational, or [NaN]. *)
Inductive Number :=
  | Finite (q : Q)
  | NaN.

(** The message of the [TypeError] thrown on reading [undefined.length]. *)
Definition undefined_length_message : string :=
  "Cannot read properties of undefined (reading 'length')".

(** [calculateHealthScore(issues)]; the argument lists the severities of
    the issues, and is [None] when the result holds no [issues]: reading
    [issues.length] then throws. The divisions and the clamp are exact on
    the numbers met here. *)
Definition calculateHealthScore (issues : option (list string)) : Try Number :=
  match issues with
  | None => Thrown undefined_length_message
  | Some severities =>
      let totalIssues := Z.of_nat (length severities) in
      if totalIssues =? 0 then Done (Finite 100)
      else
        let weightedSum :=
          fold_left (fun sum sev => plus sum (weight sev)) severities (Num 0) in
        match weightedSum with
        | Num w =>
            Done (Finite
              (Qmax 0 (Qmin 100 (100 - (inject_Z w / inject_Z totalIssues) * 10)))%Q)
        | NotNum => Done NaN
        end
  end.

(** [categorizeIssues] and [aggregateCategories]: the reduce that counts
    the issues under a key of theirs, on an object that starts as [{}].
    [acc[k] || 0] finds the count written before, or what the prototype
    holds under [k]; assigning to [__proto__] anything that is not an
    object is ignored. The result lists the own properties. *)
Definition found (acc : gmap string Value) (k : string) : Value :=
  match acc !! k with
  | Some v => v
  | None => if prototype_member k then NotNum else Num 0
  end.

Definition count_step (acc : gmap string Value) (k : string) : gmap string Value :=
  if String.eqb k "__proto__" then acc
  else <[k := plus (found acc k) (Num 1)]> acc.

Definition count_by (keys : list string) : gmap string Value :=
  fold_left count_step keys ∅.


End Webhook.

(** ** CrawlerService *)

Module Crawler.
Import Credit Middleware Routes.

(** *** The traversal of [crawlPage] *)

(** What the browser shows of a page once [page.goto] has returned:
    [page.title()], the meta description ([null] when the query fails),
    and the http links of the page. *)
Record Page := {
  pg_title : Try string;
  pg_description : option string;
  pg_links : Try (list string)
}.

Record Issue := {
  is_type : string;
  is_severity : string;
  is_message : string;
  is_url : string
}.

(** [this.visitedUrls] and the [issues] array, both shared by every call. *)
Record CrawlState := {
  visitedUrls : gset string;
  issues : list Issue
}.

Definition push (i : Issue) (st : CrawlState) : CrawlState :=
  {| visitedUrls := visitedUrls st; issues := issues st ++ [i] |}.

Definition failed (url msg : string) : Issue :=
  {| is_type := "error"; is_severity := "high";
     is_message := "Failed to crawl: " +:+ msg; is_url := url |}.

(** The two checks made on a loaded page. A title is taken to be ASCII,
    where [title.length] is the number of its characters. *)
Definition seo_checks (url title : string) (description : option string)
    (st : CrawlState) : CrawlState :=
  let st :=
    if negb (truthy (Some title)) || (String.length title <? 10)%nat
    then push {| is_type := "seo"; is_severity := "medium";
                 is_message := "Title tag is missing or too short";
                 is_url := url |} st
    else st in
  if negb (truthy description)
  then push {| is_type := "seo"; is_severity := "medium";
               is_message := "Meta description is missing"; is_url := url |} st
  else st.

(** [crawlPage(page, url, context)] with [context.depth = depth]; [web]
    is what [page.goto] finds at each url. The depth goes down by one at
    each level of links, so it is the argument of the recursion. *)
Fixpoint crawlPage (web : string → Try Page) (depth : nat) (url : string)
    (st : CrawlState) : CrawlState :=
  match depth with
  | O => st
  | S depth' =>
      if decide (url ∈ visitedUrls st) then st
      else
        match web url with
        | Thrown msg => push (failed url msg) st
        | Done pg =>
            let st := {| visitedUrls := {[url]} ∪ visitedUrls st;
                         issues := issues st |} in
            match pg_title pg with
            | Thrown msg => push (failed url msg) st
            | Done title =>
                let st := seo_checks url title (pg_description pg) st in
                match depth' with
                | O => st
                | S _ =>
                    match pg_links pg with
                    | Thrown msg => push (failed url msg) st
                    | Done links =>
                        fold_left
                          (fun st link =>
                             if decide (link ∈ visitedUrls st) then st
                             else crawlPage web depth' link st)
                          links st
                    end
                end
            end
        end
  end.

(** [b] is reached from [a] by following [n] links of pages that load. *)
Inductive linked (web : string → Try Page) : nat → string → string → Prop :=
  | linked_here a : linked web 0 a a
  | linked_step n a b c pg ls :
      web a = Done pg → pg_links pg = Done ls → b ∈ ls →
      linked web n b c → linked web (S n) a c.

(** A state reached from another: more urls, more issues at the end. *)
Definition extends (st st' : CrawlState) : Prop :=
  visitedUrls st ⊆ visitedUrls st' ∧ issues st `prefix_of` issues st'.

(** *** [crawl] and the credits *)






Section Client.

(** What [hgetall] makes of a text field; see [Credit.read_reservation]. *)
Variable parsed : string → string.


End Client.

End Crawler.

(** * Properties of the credit ledger *)

Section CreditFacts.
Import Credit.

Lemma getBalance_incrby s s' u k n :
  credits s' = Redis.incrby k n (credits s) →
  getBalance s' u = if decide (k = u) then getBalance s u + n else getBalance s u.
Proof.
  unfold getBalance, Redis.incrby. intros ->.
  case_decide as Hk; [subst; by rewrite lookup_insert_eq | by rewrite lookup_insert_ne].
Qed.

Lemma getBalance_decrby s s' u k n :
  credits s' = Redis.decrby k n (credits s) →
  getBalance s' u = if decide (k = u) then getBalance s u - n else getBalance s u.
Proof.
  unfold getBalance, Redis.decrby. intros ->.
  case_decide as Hk; [subst; by rewrite lookup_insert_eq | by rewrite lookup_insert_ne].
Qed.

Lemma getBalance_same s s' u : credits s' = credits s → getBalance s' u = getBalance s u.
Proof. unfold getBalance. by intros ->. Qed.

Lemma getBalance_addCredits now u a r s v :
  getBalance (addCredits now u a r s).2 v
  = if decide (u = v) then getBalance s v + a else getBalance s v.
Proof. by apply getBalance_incrby. Qed.

Lemma getBalance_deduct_pipeline now u a r s v :
  getBalance (deduct_pipeline now u a r s) v
  = if decide (u = v) then getBalance s v - a else getBalance s v.
Proof. by apply getBalance_decrby. Qed.

Lemma getBalance_reserve_pipeline now u a op s v :
  getBalance (reserve_pipeline now u a op s) v
  = if decide (u = v) then getBalance s v - a else getBalance s v.
Proof. by apply getBalance_decrby. Qed.

Lemma getBalance_release_pipeline op ok rv s v :
  getBalance (release_pipeline op ok rv s) v
  = if negb ok && bool_decide (rv_userId rv = v)
    then getBalance s v + rv_amount rv else getBalance s v.
Proof.
  destruct ok; simpl; [by apply getBalance_same |].
  erewrite getBalance_incrby by reflexivity.
  case_decide; [by rewrite bool_decide_eq_true_2 | by rewrite bool_decide_eq_false_2].
Qed.



Lemma run_app (parsed : string → string) cs cs' s :
  run parsed (cs ++ cs') s = run parsed cs' (run parsed cs s).
Proof. apply fold_left_app. Qed.


(** Transactions are written by [addCredits] and [deductCredits] only. *)
Lemma tx_sum_same s s' u :
  credit_tx s' = credit_tx s → credit_history s' = credit_history s →
  tx_sum s' u = tx_sum s u.
Proof.
  unfold tx_sum, tx_delta. intros -> ->. done.
Qed.


Lemma history_exec (parsed : string → string) c s w i :
  i ∈ default [] (credit_history (exec parsed c s) !! w) →
  i = c.1 ∨ i ∈ default [] (credit_history s !! w).
Proof.
  destruct c as [now [u a r|u a r|u a op|op ok]]; simpl.
  - unfold Redis.lpush. destruct (decide (u = w)) as [->|].
    + rewrite lookup_insert_eq. simpl. set_solver.
    + rewrite lookup_insert_ne by done. auto.
  - unfold deductCredits. destruct (getBalance s u <? a); simpl; [auto|].
    unfold Redis.lpush. destruct (decide (u = w)) as [->|].
    + rewrite lookup_insert_eq. simpl. set_solver.
    + rewrite lookup_insert_ne by done. auto.
  - unfold reserveCredits. destruct (getBalance s u <? a); simpl; auto.
  - unfold releaseReservation. destruct (credit_reservation s !! op); simpl; auto.
Qed.



End CreditFacts.

(** ** Balance and transaction log over sequences of calls *)

Section LedgerSequences.
Import Credit.




End LedgerSequences.

(** ** The balance check of DeductCredits and Reserve *)

Section BalanceCheck.
Import Credit.

(** C2, as first stated, fails: the balance is read by [getBalance] and
    decremented later by an unconditional [decrby]. Two deductions of 10
    against a balance of 10, each reading the balance before the other
    writes, both succeed and leave -10; so do two holds. *)
Lemma c2_two_deductions_overdraw :
  let s0 := (addCredits 0 "u" 10 "topup" empty_store).2 in
  let deducts := [(1, DeductCredits "u" 10 "a"); (2, DeductCredits "u" 10 "b")] in
  let holds := [(1, Reserve "u" 10 "op1"); (2, Reserve "u" 10 "op2")] in
  getBalance s0 "u" = 10
  ∧ (interleave Redis.parsed_example [0; 1; 0; 1]%nat (start deducts s0)).1.*2
    = [Finished None; Finished None]
  ∧ getBalance (interleave Redis.parsed_example [0; 1; 0; 1]%nat (start deducts s0)).2 "u" = -10
  ∧ (interleave Redis.parsed_example [0; 1; 0; 1]%nat (start holds s0)).1.*2
    = [Finished None; Finished None]
  ∧ getBalance (interleave Redis.parsed_example [0; 1; 0; 1]%nat (start holds s0)).2 "u" = -10.
Proof. repeat split; by vm_compute. Qed.

(** C2 (amended). DeductCredits, and likewise the hold of Reserve, first
    reads the balance and, in a later pipeline, decrements the stored
    balance without a condition: when the value [b] read earlier is at
    least the amount, the call succeeds and the balance becomes the
    balance stored at that moment minus the amount, whatever that
    balance is. Run with no other call in between, the two segments are
    the method itself. *)
Theorem c2_read_then_unconditional_decrement (parsed : string → string)
    (now : Z) (u : string) (a b : Z) (r op : string) (s : Store) :
  a ≤ b →
  step parsed (now, DeductCredits u a r) AtStart s = (HasBalance (getBalance s u), s)
  ∧ step parsed (now, DeductCredits u a r) (HasBalance b) s
    = (Finished None, deduct_pipeline now u a r s)
  ∧ getBalance (deduct_pipeline now u a r s) u = getBalance s u - a
  ∧ step parsed (now, Reserve u a op) AtStart s = (HasBalance (getBalance s u), s)
  ∧ step parsed (now, Reserve u a op) (HasBalance b) s
    = (Finished None, reserve_pipeline now u a op s)
  ∧ getBalance (reserve_pipeline now u a op s) u = getBalance s u - a
  ∧ (interleave parsed [0; 0]%nat (start [(now, DeductCredits u a r)] s)).2
    = (deductCredits now u a r s).2
  ∧ (interleave parsed [0; 0]%nat (start [(now, Reserve u a op)] s)).2
    = (reserveCredits now u a op s).2.
Proof.
  intros Hab.
  assert (Hlt : (b <? a) = false) by (apply Z.ltb_ge; lia).
  repeat split.
  - simpl. by rewrite Hlt.
  - rewrite getBalance_deduct_pipeline. by case_decide.
  - simpl. by rewrite Hlt.
  - rewrite getBalance_reserve_pipeline. by case_decide.
  - unfold deductCredits, interleave, start, sched_step. simpl.
    by destruct (getBalance s u <? a).
  - unfold reserveCredits, interleave, start, sched_step. simpl.
    by destruct (getBalance s u <? a).
Qed.

Lemma c2_read_then_unconditional_decrement_witness :
  10 ≤ 10
  ∧ step Redis.parsed_example (5, DeductCredits "u" 10 "crawl") (HasBalance 10) empty_store
    = (Finished None, deduct_pipeline 5 "u" 10 "crawl" empty_store)
  ∧ getBalance (deduct_pipeline 5 "u" 10 "crawl" empty_store) "u"
    = getBalance empty_store "u" - 10.
Proof.
  split; [lia|].
  destruct (c2_read_then_unconditional_decrement Redis.parsed_example
              5 "u" 10 10 "crawl" "op" empty_store)
    as (_ & H2 & H3 & _); [lia|].
  split; [exact H2 | exact H3].
Defined.

(** C3, as first stated, fails: [reserveCredits] never looks for a
    reservation under the operation id. Two holds of 5 under "op1"
    against a balance of 20 both succeed; the balance ends at 10 and the
    second record replaces the first. *)
Lemma c3_second_reserve_same_id_succeeds :
  let s0 := (addCredits 0 "u" 20 "topup" empty_store).2 in
  let r1 := reserveCredits 1 "u" 5 "op1" s0 in
  let r2 := reserveCredits 2 "u" 5 "op1" r1.2 in
  r1.1 = Ok tt
  ∧ credit_reservation r1.2 !! "op1"
    = Some {| rv_userId := "u"; rv_amount := 5; rv_timestamp := 1 |}
  ∧ r2.1 = Ok tt
  ∧ getBalance r2.2 "u" = 10
  ∧ credit_reservation r2.2 !! "op1"
    = Some {| rv_userId := "u"; rv_amount := 5; rv_timestamp := 2 |}.
Proof. repeat split; by vm_compute. Qed.

(** C3 (amended). Reserve fails with InsufficientCredits, changing
    nothing, when the balance is below the amount; otherwise it
    succeeds, lowers the user's balance by the amount and stores the
    reservation under the operation id, in place of any reservation
    stored there before; other balances and other reservations stay. *)
Theorem c3_reserve_checks_balance_only
    (now : Z) (u : string) (a : Z) (op : string) (s : Store) :
  (getBalance s u < a →
     reserveCredits now u a op s = (Throw InsufficientCredits, s))
  ∧ (a ≤ getBalance s u →
     ∃ s', reserveCredits now u a op s = (Ok tt, s')
       ∧ getBalance s' u = getBalance s u - a
       ∧ credit_reservation s' !! op
         = Some {| rv_userId := u; rv_amount := a; rv_timestamp := now |}
       ∧ (∀ v, v ≠ u → getBalance s' v = getBalance s v)
       ∧ (∀ op', op' ≠ op →
            credit_reservation s' !! op' = credit_reservation s !! op')).
Proof.
  unfold reserveCredits. split; intros H.
  - apply Z.ltb_lt in H. by rewrite H.
  - apply Z.ltb_ge in H. rewrite H. eexists. split; [reflexivity|].
    repeat split.
    + rewrite getBalance_reserve_pipeline. by case_decide.
    + simpl. by rewrite lookup_insert_eq.
    + intros v Hv. rewrite getBalance_reserve_pipeline. by case_decide.
    + intros op' Hop. simpl. by rewrite lookup_insert_ne.
Qed.

Lemma c3_reserve_checks_balance_only_witness :
  let s0 := (addCredits 0 "u" 20 "topup" empty_store).2 in
  (getBalance s0 "u" < 30
   ∧ reserveCredits 1 "u" 30 "op1" s0 = (Throw InsufficientCredits, s0))
  ∧ (5 ≤ getBalance s0 "u"
     ∧ ∃ s', reserveCredits 1 "u" 5 "op1" s0 = (Ok tt, s')
         ∧ getBalance s' "u" = getBalance s0 "u" - 5).
Proof.
  set (s0 := (addCredits 0 "u" 20 "topup" empty_store).2). simpl.
  assert (H1 : getBalance s0 "u" < 30) by (by vm_compute).
  assert (H2 : 5 ≤ getBalance s0 "u") by (by vm_compute).
  split.
  - split; [exact H1|].
    exact (proj1 (c3_reserve_checks_balance_only 1 "u" 30 "op1" s0) H1).
  - split; [exact H2|].
    destruct (proj2 (c3_reserve_checks_balance_only 1 "u" 5 "op1" s0) H2)
      as (s' & Hr & Hb & _).
    exists s'. split; [exact Hr | exact Hb].
Defined.

End BalanceCheck.

(** ** Holds and their release *)

Section Reservations.
Import Credit.

(** C4. A hold of [a] created by Reserve is deleted by
    ReleaseReservation(op, false), which gives the amount back to the user
    id as [hgetall] returns it: when the client returns the id as it was
    stored, the balance Reserve found is restored; when it does not, the
    user stays [a] short and the amount goes to the user named by what the
    client returns. ReleaseReservation(op, true) deletes the record and
    changes no balance, so a DeductCredits of the final cost [f] that
    follows leaves the user charged [a + f]. On the two runs of the
    specification, for the user "user": 100, hold 14, 86, release(true),
    86, deduct 20, 66; and 20, hold 10, 10, release(false), 20. For the
    user "1e2", whose id the client reads as the number 100: 20, hold 10,
    10, release(false), 10, and the 10 credits are on the balance of the
    user "100". *)
Theorem c4_release_refunds_the_parsed_user
    (parsed : string → string) (now : Z) (u : string) (a : Z) (op : string) (s : Store) :
  let s1 := (reserveCredits now u a op s).2 in
  (a ≤ getBalance s u →
     (getBalance s1 u = getBalance s u - a
      ∧ credit_reservation s1 !! op
        = Some {| rv_userId := u; rv_amount := a; rv_timestamp := now |})
     ∧ (∃ s2, releaseReservation parsed op false s1 = (Ok tt, s2)
          ∧ credit_reservation s2 !! op = None
          ∧ getBalance s2 (parsed u) = getBalance s1 (parsed u) + a
          ∧ (∀ v, v ≠ parsed u → getBalance s2 v = getBalance s1 v)
          ∧ (parsed u = u → getBalance s2 u = getBalance s u)
          ∧ (parsed u ≠ u → getBalance s2 u = getBalance s u - a))
     ∧ (∃ s3, releaseReservation parsed op true s1 = (Ok tt, s3)
          ∧ (∀ v, getBalance s3 v = getBalance s1 v)
          ∧ credit_reservation s3 !! op = None
          ∧ ∀ now' f r, f ≤ getBalance s u - a →
              ∃ s4, deductCredits now' u f r s3 = (Ok now', s4)
                ∧ getBalance s4 u = getBalance s u - (a + f)))
  ∧ (let s100 := (addCredits 0 "user" 100 "topup" empty_store).2 in
     let h := (reserveCredits 1 "user" 14 "op1" s100).2 in
     let k := (releaseReservation Redis.parsed_example "op1" true h).2 in
     let d := (deductCredits 2 "user" 20 "final" k).2 in
     getBalance s100 "user" = 100 ∧ getBalance h "user" = 86
     ∧ getBalance k "user" = 86 ∧ getBalance d "user" = 66)
  ∧ (let s20 := (addCredits 0 "user" 20 "topup" empty_store).2 in
     let h := (reserveCredits 1 "user" 10 "op1" s20).2 in
     let k := (releaseReservation Redis.parsed_example "op1" false h).2 in
     getBalance s20 "user" = 20 ∧ getBalance h "user" = 10
     ∧ getBalance k "user" = 20)
  ∧ (let s20 := (addCredits 0 "1e2" 20 "topup" empty_store).2 in
     let h := (reserveCredits 1 "1e2" 10 "op1" s20).2 in
     let k := releaseReservation Redis.parsed_example "op1" false h in
     getBalance s20 "1e2" = 20 ∧ getBalance h "1e2" = 10
     ∧ k.1 = Ok tt ∧ credit_reservation k.2 !! "op1" = None
     ∧ getBalance k.2 "1e2" = 10 ∧ getBalance k.2 "1e2" ≠ 20
     ∧ getBalance k.2 "100" = 10).
Proof.
  intros s1. split; [|split; [|split]].
  - intros Ha.
    assert (Hs1 : s1 = reserve_pipeline now u a op s).
    { unfold s1, reserveCredits. apply Z.ltb_ge in Ha. by rewrite Ha. }
    clearbody s1.
    assert (Hb1 : getBalance s1 u = getBalance s u - a).
    { rewrite Hs1, getBalance_reserve_pipeline. by case_decide. }
    assert (Hr1 : credit_reservation s1 !! op
                  = Some {| rv_userId := u; rv_amount := a; rv_timestamp := now |}).
    { rewrite Hs1. simpl. by rewrite lookup_insert_eq. }
    split; [done|]. split.
    + eexists. unfold releaseReservation. rewrite Hr1. split; [reflexivity|].
      split; [simpl; by rewrite lookup_delete_eq|].
      split; [|split; [|split]].
      * rewrite getBalance_release_pipeline. simpl.
        by rewrite bool_decide_eq_true_2.
      * intros v Hv. rewrite getBalance_release_pipeline. simpl.
        by rewrite bool_decide_eq_false_2.
      * intros Hu. rewrite getBalance_release_pipeline. simpl.
        rewrite bool_decide_eq_true_2 by done. lia.
      * intros Hu. rewrite getBalance_release_pipeline. simpl.
        rewrite bool_decide_eq_false_2 by done. lia.
    + eexists. unfold releaseReservation. rewrite Hr1. split; [reflexivity|].
      split; [|split].
      * intros v. by rewrite getBalance_release_pipeline.
      * simpl. by rewrite lookup_delete_eq.
      * intros now' f r Hf. eexists. unfold deductCredits.
        rewrite getBalance_release_pipeline. simpl. rewrite Hb1.
        apply Z.ltb_ge in Hf. rewrite Hf. split; [reflexivity|].
        rewrite getBalance_deduct_pipeline, getBalance_release_pipeline. simpl.
        rewrite Hb1. case_decide; [lia | done].
  - repeat split; by vm_compute.
  - repeat split; by vm_compute.
  - cbv zeta. split; [by vm_compute|]. split; [by vm_compute|].
    split; [by vm_compute|]. split; [by vm_compute|].
    split; [by vm_compute|]. split; [by vm_compute|]. by vm_compute.
Qed.

(** C8, as first stated, fails when two releases of one hold overlap:
    each awaits [hgetall] before the other deletes the record, both find
    it, and both succeed. With a balance of 20 and a hold of 10 under
    "op1", two ReleaseReservation("op1", false) that interleave both
    finish without error and leave the balance at 30. *)
Lemma c8_two_releases_both_succeed :
  let s0 := (addCredits 0 "u" 20 "topup" empty_store).2 in
  let s1 := (reserveCredits 1 "u" 10 "op1" s0).2 in
  let releases := [(2, ReleaseReservation "op1" false);
                   (3, ReleaseReservation "op1" false)] in
  let r := interleave Redis.parsed_example [0; 1; 0; 1]%nat (start releases s1) in
  getBalance s0 "u" = 20 ∧ getBalance s1 "u" = 10
  ∧ r.1.*2 = [Finished None; Finished None]
  ∧ getBalance r.2 "u" = 30
  ∧ credit_reservation r.2 !! "op1" = None.
Proof. repeat split; by vm_compute. Qed.

(** C8 (amended). For calls made one after the other, each finishing
    before the next starts: ReleaseReservation fails with
    ReservationNotFound, changing nothing, when no record is stored under
    the operation id; it succeeds when one is; and after it has succeeded
    the record is gone, so a second ReleaseReservation for the same id,
    with either flag, fails with ReservationNotFound. *)
Theorem c8_release_not_found_and_once
    (parsed : string → string) (op : string) (ok ok' : bool) (s : Store) :
  (credit_reservation s !! op = None →
     releaseReservation parsed op ok s = (Throw ReservationNotFound, s))
  ∧ (is_Some (credit_reservation s !! op) →
     ∃ s', releaseReservation parsed op ok s = (Ok tt, s'))
  ∧ (∀ s', releaseReservation parsed op ok s = (Ok tt, s') →
       credit_reservation s' !! op = None
       ∧ releaseReservation parsed op ok' s' = (Throw ReservationNotFound, s')).
Proof.
  unfold releaseReservation. split; [|split].
  - by intros ->.
  - intros [rv ->]. by eexists.
  - intros s'. destruct (credit_reservation s !! op) as [rv|]; [|done].
    intros [= <-]. simpl. by rewrite lookup_delete_eq.
Qed.

Lemma c8_release_not_found_and_once_witness :
  let s0 := (addCredits 0 "u" 20 "topup" empty_store).2 in
  let s1 := (reserveCredits 1 "u" 10 "op1" s0).2 in
  (credit_reservation s0 !! "op1" = None
   ∧ releaseReservation Redis.parsed_example "op1" false s0
     = (Throw ReservationNotFound, s0))
  ∧ (is_Some (credit_reservation s1 !! "op1")
     ∧ ∃ s', releaseReservation Redis.parsed_example "op1" true s1 = (Ok tt, s')
         ∧ releaseReservation Redis.parsed_example "op1" false s'
           = (Throw ReservationNotFound, s')).
Proof.
  set (s0 := (addCredits 0 "u" 20 "topup" empty_store).2).
  set (s1 := (reserveCredits 1 "u" 10 "op1" s0).2). simpl.
  assert (H0 : credit_reservation s0 !! "op1" = None) by reflexivity.
  assert (H1 : is_Some (credit_reservation s1 !! "op1")) by (eexists; by vm_compute).
  split.
  - split; [exact H0|].
    exact (proj1 (c8_release_not_found_and_once Redis.parsed_example
                    "op1" false false s0) H0).
  - split; [exact H1|].
    destruct (c8_release_not_found_and_once Redis.parsed_example "op1" true false s1)
      as (_ & Hsome & Honce).
    destruct (Hsome H1) as [s' Hs']. exists s'. split; [exact Hs'|].
    exact (proj2 (Honce s' Hs')).
Defined.

End Reservations.

(** ** Transaction history *)

Section History.
Import Credit.

Lemma lrange_list_prefix {A} (l : list A) (limit : Z) :
  1 ≤ limit → Redis.lrange_list l 0 (limit - 1) = take (Z.to_nat limit) l.
Proof.
  intros Hl. unfold Redis.lrange_list. cbv zeta.
  assert (H0 : (0 <? 0) = false) by done.
  assert (H1 : (limit - 1 <? 0) = false) by (apply Z.ltb_ge; lia).
  rewrite H0, H1, H0, H1. simpl.
  change (Z.to_nat 0) with 0%nat. rewrite drop_0.
  destruct (Z.leb_spec (Z.of_nat (length l)) 0) as [Hlen|Hlen].
  - destruct l; [by rewrite take_nil | simpl in Hlen; lia].
  - destruct (Z.leb_spec (Z.of_nat (length l)) (limit - 1)).
    + rewrite !take_ge; [done | lia | lia].
    + f_equal. lia.
Qed.

Lemma history_ids (parsed : string → string) u limit s :
  (getTransactionHistory parsed u limit s).*1
  = Redis.lrange u 0 (limit - 1) (credit_history s).
Proof.
  unfold getTransactionHistory.
  destruct (Redis.lrange u 0 (limit - 1) (credit_history s)) as [|i l]; [done|].
  rewrite <- list_fmap_compose. simpl. f_equal. induction l; [done|]. simpl. by f_equal.
Qed.

(** C9, as first stated, fails at limit 0: the range asked of the store
    is then [0 .. -1], which is the whole list. *)
Lemma c9_limit_zero_returns_all :
  let s := run Redis.parsed_example
             [(1, AddCredits "u" 10 "a"); (2, AddCredits "u" 5 "b")] empty_store in
  (getTransactionHistory Redis.parsed_example "u" 0 s).*1 = [2; 1]
  ∧ ¬ (Z.of_nat (length (getTransactionHistory Redis.parsed_example "u" 0 s)) ≤ 0).
Proof. split; by vm_compute. Qed.

(** C9 (amended). For every user and every limit of at least 1,
    GetTransactionHistory returns the first [limit] ids of the user's
    history, to which every AddCredits and DeductCredits prepends its
    transaction, each id with the transaction stored under it, as
    [hgetall] returns it: the transaction appended last comes first, and
    at most [limit] are returned. *)
Theorem c9_history_most_recent_first
    (parsed : string → string) (u : string) (limit : Z) (s : Store) :
  1 ≤ limit →
  (getTransactionHistory parsed u limit s).*1
    = take (Z.to_nat limit) (default [] (credit_history s !! u))
  ∧ Z.of_nat (length (getTransactionHistory parsed u limit s)) ≤ limit
  ∧ (∀ now a r,
       let s' := (addCredits now u a r s).2 in
       head (getTransactionHistory parsed u limit s')
         = Some (now, Some (read_transaction parsed
                              {| tx_userId := u; tx_amount := a; tx_type := TxAdd;
                                 tx_reason := r; tx_timestamp := now |}))
       ∧ (getTransactionHistory parsed u limit s').*1
         = now :: take (Z.to_nat (limit - 1)) (default [] (credit_history s !! u)))
  ∧ (∀ now a r, a ≤ getBalance s u →
       let s' := (deductCredits now u a r s).2 in
       head (getTransactionHistory parsed u limit s')
         = Some (now, Some (read_transaction parsed
                              {| tx_userId := u; tx_amount := - a; tx_type := TxDeduct;
                                 tx_reason := r; tx_timestamp := now |}))
       ∧ (getTransactionHistory parsed u limit s').*1
         = now :: take (Z.to_nat (limit - 1)) (default [] (credit_history s !! u))).
Proof.
  intros Hl.
  assert (Hids : ∀ s0, (getTransactionHistory parsed u limit s0).*1
                       = take (Z.to_nat limit) (default [] (credit_history s0 !! u))).
  { intros s0. rewrite history_ids. unfold Redis.lrange. by apply lrange_list_prefix. }
  assert (Hpush : ∀ s' now tx,
    credit_tx s' = <[now := tx]> (credit_tx s) →
    credit_history s' = Redis.lpush u now (credit_history s) →
    head (getTransactionHistory parsed u limit s')
      = Some (now, Some (read_transaction parsed tx))
    ∧ (getTransactionHistory parsed u limit s').*1
      = now :: take (Z.to_nat (limit - 1)) (default [] (credit_history s !! u))).
  { intros s' now tx Htx Hh.
    assert (Hl' : Z.to_nat limit = S (Z.to_nat (limit - 1))) by lia.
    split.
    - unfold getTransactionHistory, Redis.lrange.
      rewrite lrange_list_prefix by done. rewrite Hh. unfold Redis.lpush.
      rewrite lookup_insert_eq. simpl. rewrite Hl'. simpl.
      by rewrite Htx, lookup_insert_eq.
    - rewrite Hids, Hh. unfold Redis.lpush. rewrite lookup_insert_eq. simpl.
      by rewrite Hl'. }
  split; [apply Hids|]. split; [|split].
  - rewrite <- (length_fmap fst), Hids, length_take. lia.
  - intros now a r. by apply Hpush.
  - intros now a r Ha. unfold deductCredits. apply Z.ltb_ge in Ha. rewrite Ha.
    by apply Hpush.
Qed.

Lemma c9_history_most_recent_first_witness :
  let s := run Redis.parsed_example
             [(1, AddCredits "u" 10 "a"); (2, AddCredits "u" 5 "b")] empty_store in
  1 ≤ 1
  ∧ (getTransactionHistory Redis.parsed_example "u" 1 s).*1
    = take 1 (default [] (credit_history s !! "u"))
  ∧ Z.of_nat (length (getTransactionHistory Redis.parsed_example "u" 1 s)) ≤ 1.
Proof.
  simpl.
  assert (H : 1 ≤ 1) by lia.
  split; [exact H|].
  destruct (c9_history_most_recent_first Redis.parsed_example "u" 1
    (run Redis.parsed_example
       [(1, AddCredits "u" 10 "a"); (2, AddCredits "u" 5 "b")] empty_store) H)
    as (Hids & Hlen & _).
  split; [exact Hids | exact Hlen].
Defined.

End History.

(** ** Amounts that are not positive *)

Section Amounts.
Import Credit.

(** C10. No method of the ledger checks the sign of the amount. Against
    a balance that is not negative, DeductCredits and Reserve with an
    amount of 0 or less succeed and raise the stored balance by the
    absolute value of the amount; AddCredits with such an amount
    succeeds and lowers the balance by it. *)
Theorem c10_nonpositive_amounts_accepted
    (now : Z) (u : string) (a : Z) (r op : string) (s : Store) :
  0 ≤ getBalance s u → a ≤ 0 →
  (∃ s', deductCredits now u a r s = (Ok now, s')
     ∧ getBalance s' u = getBalance s u + Z.abs a)
  ∧ (∃ s', reserveCredits now u a op s = (Ok tt, s')
       ∧ getBalance s' u = getBalance s u + Z.abs a)
  ∧ (∃ s', addCredits now u a r s = (Ok now, s')
       ∧ getBalance s' u = getBalance s u - Z.abs a).
Proof.
  intros Hb Ha.
  assert (Hlt : (getBalance s u <? a) = false) by (apply Z.ltb_ge; lia).
  split; [|split].
  - eexists. unfold deductCredits. rewrite Hlt. split; [reflexivity|].
    rewrite getBalance_deduct_pipeline. case_decide; [lia | done].
  - eexists. unfold reserveCredits. rewrite Hlt. split; [reflexivity|].
    rewrite getBalance_reserve_pipeline. case_decide; [lia | done].
  - exists (addCredits now u a r s).2. split; [reflexivity|].
    rewrite getBalance_addCredits. case_decide; [lia | done].
Qed.

Lemma c10_nonpositive_amounts_accepted_witness :
  let s := (addCredits 0 "u" 7 "topup" empty_store).2 in
  0 ≤ getBalance s "u" ∧ -5 ≤ 0
  ∧ (∃ s', deductCredits 1 "u" (-5) "r" s = (Ok 1, s') ∧ getBalance s' "u" = 7 + 5)
  ∧ (∃ s', addCredits 1 "u" (-5) "r" s = (Ok 1, s') ∧ getBalance s' "u" = 7 - 5).
Proof.
  set (s := (addCredits 0 "u" 7 "topup" empty_store).2). simpl.
  assert (Hb : 0 ≤ getBalance s "u") by (by vm_compute).
  assert (Ha : -5 ≤ 0) by lia.
  split; [exact Hb|]. split; [exact Ha|].
  destruct (c10_nonpositive_amounts_accepted 1 "u" (-5) "r" "op" s Hb Ha)
    as ((s1 & H1 & Hb1) & _ & (s3 & H3 & Hb3)).
  split.
  - exists s1. split; [exact H1 | exact Hb1].
  - exists s3. split; [exact H3 | exact Hb3].
Defined.

End Amounts.

(** ** Cost formulas *)

Section Costs.
Import Credit.

Lemma Qceiling_half (n : Z) : Qceiling (inject_Z n * (1 # 2))%Q = (n + 1) / 2.
Proof.
  assert (H : (inject_Z n * (1 # 2) == n # 2)%Q) by (unfold Qeq; simpl; lia).
  rewrite H. unfold Qceiling, Qfloor, Qopp. simpl.
  Z.to_euclidean_division_equations. lia.
Qed.

Lemma half_up_shift (n c : Z) : (n + 4 * c + 1) / 2 = (n + 1) / 2 + 2 * c.
Proof. Z.to_euclidean_division_equations. lia. Qed.

Lemma calculateCrawlCost_closed (p d c : Z) :
  calculateCrawlCost (inject_Z p) (inject_Z d) (inject_Z c)
  = (p * (1 + Z.max 1 d) + 1) / 2 + 2 * c.
Proof.
  unfold calculateCrawlCost.
  assert (Hb : Qle_bool (inject_Z d) 1 = (d <=? 1)).
  { unfold Qle_bool. simpl. f_equal; lia. }
  rewrite Hb, <- half_up_shift, <- Qceiling_half.
  destruct (Z.leb_spec d 1); simpl; apply Qceiling_comp.
  - rewrite Z.max_l by lia. unfold Qeq. simpl. lia.
  - rewrite Z.max_r by lia. unfold Qeq. simpl. lia.
Qed.

Lemma spec_CalculateCrawlCost_closed (p d c : Z) :
  spec_CalculateCrawlCost p d c = (p * (1 + Z.max 1 d) + 1) / 2 + 2 * c.
Proof.
  unfold spec_CalculateCrawlCost.
  rewrite <- half_up_shift, <- Qceiling_half. apply Qceiling_comp.
  destruct (Z.le_gt_cases d 1).
  - rewrite Q.max_l by (unfold Qle; simpl; lia).
    rewrite Z.max_l by lia. unfold Qeq. simpl. lia.
  - rewrite Q.max_r by (unfold Qle; simpl; lia).
    rewrite Z.max_r by lia. unfold Qeq. simpl. lia.
Qed.

Lemma round_exact (m : Z) : 0 ≤ m < 2 ^ 53 → F64.round m = m.
Proof.
  intros Hm. unfold F64.round. cbv zeta. rewrite Z.abs_eq by lia.
  destruct (Z.ltb_spec m (2 ^ 53)); [done | lia].
Qed.

Lemma exact_bounds (p d c : Z) :
  0 ≤ p → 0 ≤ d → 0 ≤ c → F64.exact p d c →
  p < 2 ^ 53 ∧ d + 1 < 2 ^ 53 ∧ 4 * c < 2 ^ 53
  ∧ p * (1 + Z.max 1 d) < 2 ^ 53 ∧ 2 * p < 2 ^ 53.
Proof.
  intros Hp Hd Hc [Hdepth Hcost].
  assert (H1 : 2 * p ≤ p * (1 + Z.max 1 d)) by nia.
  lia.
Qed.

Lemma F64_calculateCrawlCost_closed (p d c : Z) :
  0 ≤ p → 0 ≤ d → 0 ≤ c → F64.exact p d c →
  F64.calculateCrawlCost p d c = (p * (1 + Z.max 1 d) + 1) / 2 + 2 * c.
Proof.
  intros Hp Hd Hc Hex.
  destruct (exact_bounds p d c Hp Hd Hc Hex) as (Bp & Bd & Bc & Bpd & B2p).
  destruct Hex as [_ Hcost].
  unfold F64.calculateCrawlCost. cbv zeta.
  rewrite (round_exact p), (round_exact d), (round_exact c) by lia.
  rewrite (round_exact (c * 2)) by lia.
  destruct (Z.ltb_spec 1 d) as [Hdeep|Hflat].
  - rewrite Z.max_r in * by lia.
    rewrite (round_exact (d - 1)) by lia.
    rewrite (round_exact (2 + (d - 1))) by lia.
    replace (2 + (d - 1)) with (1 + d) by lia.
    rewrite (round_exact (p * (1 + d))) by nia.
    rewrite round_exact by nia.
    replace (p * (1 + d) + 2 * (c * 2) + 1) with (p * (1 + d) + 4 * c + 1) by lia.
    apply half_up_shift.
  - rewrite Z.max_l in * by lia.
    rewrite round_exact by lia.
    replace (2 * p + 2 * (c * 2) + 1) with (p * (1 + 1) + 4 * c + 1) by lia.
    apply half_up_shift.
Qed.

Lemma F64_calculateRecheckCost_closed (n : Z) :
  0 ≤ n < 2 ^ 53 → F64.calculateRecheckCost n = (n + 1) / 2.
Proof. intros Hn. unfold F64.calculateRecheckCost. cbv zeta. by rewrite round_exact. Qed.

(** C5, as first stated, fails on large numbers: the code computes in
    doubles. For 2^53 - 1 pages at depth 2 the exact cost is
    13510798882111486.5, which no double holds; the product is stored as
    13510798882111486 and that is returned, where the formula gives
    13510798882111487. Likewise 2^53 + 1 issues. *)
Lemma c5_large_costs_are_rounded :
  F64.calculateCrawlCost (2 ^ 53 - 1) 2 0 = 13510798882111486
  ∧ spec_CalculateCrawlCost (2 ^ 53 - 1) 2 0 = 13510798882111487
  ∧ ¬ F64.exact (2 ^ 53 - 1) 2 0
  ∧ F64.calculateRecheckCost (2 ^ 53 + 1) = 2 ^ 52
  ∧ spec_CalculateRecheckCost (2 ^ 53 + 1) = 2 ^ 52 + 1.
Proof.
  split; [by vm_compute|]. split; [by vm_compute|]. split.
  - intros [_ H]. by vm_compute in H.
  - split; by vm_compute.
Qed.

(** C5 (amended). On natural numbers small enough that no operation
    rounds, that is with [depth + 1] and twice the cost
    [pages * (1 + max(1, depth)) + 4 * customChecks] below 2^53,
    CalculateCrawlCost is
    [ceil(pages * (1 + max(0, depth-1) * 0.5) + customChecks * 2)], and for
    [issueCount] below 2^53 CalculateRecheckCost is
    [ceil(issueCount * 0.5)]; in integers these are
    [(pages * (1 + max(1, depth)) + 1) div 2 + 2 * customChecks] and
    [(issueCount + 1) div 2], and they are what the same code gives over
    the rationals. Both are functions of their arguments alone: they take
    no store and return none. In particular CalculateCrawlCost(1,1,0) = 1,
    (1,3,0) = 2, (10,1,2) = 14, and CalculateRecheckCost(5) = 3. *)
Theorem c5_cost_formulas (pages depth customChecks issueCount : nat) :
  let p := Z.of_nat pages in
  let d := Z.of_nat depth in
  let c := Z.of_nat customChecks in
  let n := Z.of_nat issueCount in
  F64.exact p d c → n < 2 ^ 53 →
  F64.calculateCrawlCost p d c = spec_CalculateCrawlCost p d c
  ∧ F64.calculateCrawlCost p d c = (p * (1 + Z.max 1 d) + 1) / 2 + 2 * c
  ∧ F64.calculateCrawlCost p d c
    = calculateCrawlCost (inject_Z p) (inject_Z d) (inject_Z c)
  ∧ F64.calculateRecheckCost n = spec_CalculateRecheckCost n
  ∧ F64.calculateRecheckCost n = (n + 1) / 2
  ∧ F64.calculateRecheckCost n = calculateRecheckCost (inject_Z n)
  ∧ F64.calculateCrawlCost 1 1 0 = 1
  ∧ F64.calculateCrawlCost 1 3 0 = 2
  ∧ F64.calculateCrawlCost 10 1 2 = 14
  ∧ F64.calculateRecheckCost 5 = 3.
Proof.
  intros p d c n Hex Hn.
  assert (Hcost : F64.calculateCrawlCost p d c
                  = (p * (1 + Z.max 1 d) + 1) / 2 + 2 * c)
    by (apply F64_calculateCrawlCost_closed; unfold p, d, c; lia || done).
  assert (Hre : F64.calculateRecheckCost n = (n + 1) / 2)
    by (apply F64_calculateRecheckCost_closed; unfold n; lia).
  split; [by rewrite Hcost, spec_CalculateCrawlCost_closed|].
  split; [exact Hcost|].
  split; [by rewrite Hcost, calculateCrawlCost_closed|].
  split; [rewrite Hre; symmetry; apply Qceiling_half|].
  split; [exact Hre|].
  split; [rewrite Hre; symmetry; apply Qceiling_half|].
  repeat split; by vm_compute.
Qed.

Lemma c5_cost_formulas_witness :
  F64.exact (Z.of_nat 10) (Z.of_nat 3) (Z.of_nat 2) ∧ Z.of_nat 5 < 2 ^ 53
  ∧ F64.calculateCrawlCost (Z.of_nat 10) (Z.of_nat 3) (Z.of_nat 2)
    = spec_CalculateCrawlCost (Z.of_nat 10) (Z.of_nat 3) (Z.of_nat 2)
  ∧ F64.calculateRecheckCost (Z.of_nat 5) = spec_CalculateRecheckCost (Z.of_nat 5).
Proof.
  assert (H1 : F64.exact (Z.of_nat 10) (Z.of_nat 3) (Z.of_nat 2))
    by (split; by vm_compute).
  assert (H2 : Z.of_nat 5 < 2 ^ 53) by (by vm_compute).
  split; [exact H1|]. split; [exact H2|].
  destruct (c5_cost_formulas 10 3 2 5 H1 H2) as (Hc & _ & _ & Hr & _).
  split; [exact Hc | exact Hr].
Defined.

End Costs.

(** * Properties of the rate limiter *)

Section LimiterFacts.
Import Limiter.

(** The three key families never meet. *)
Lemma userKey_ne_domainKey u d : userKey u ≠ domainKey d.
Proof. unfold userKey, domainKey. simpl. intros H. simplify_eq. Qed.

Lemma userKey_ne_concurrentKey u d : userKey u ≠ concurrentKey d.
Proof. unfold userKey, concurrentKey. simpl. intros H. simplify_eq. Qed.

Lemma domainKey_ne_concurrentKey d d' : domainKey d ≠ concurrentKey d'.
Proof. unfold domainKey, concurrentKey. simpl. intros H. simplify_eq. Qed.

Lemma concurrentKey_inj d d' : concurrentKey d = concurrentKey d' → d = d'.
Proof. unfold concurrentKey. simpl. intros H. by simplify_eq. Qed.

Lemma same_at_refl k s : same_at k s s.
Proof. done. Qed.

Lemma same_at_trans k s1 s2 s3 : same_at k s1 s2 → same_at k s2 s3 → same_at k s1 s3.
Proof. unfold same_at. intros (-> & -> & ->) (-> & -> & ->). done. Qed.

Lemma same_at_expired t k s s' : same_at k s s' → expired t k s' = expired t k s.
Proof. unfold expired. by intros (_ & _ & ->). Qed.

Lemma same_at_zmembers t k s s' : same_at k s s' → zmembers t k s' = zmembers t k s.
Proof.
  intros H. unfold zmembers. rewrite (same_at_expired t k s s' H).
  destruct H as (-> & _). done.
Qed.

Lemma same_at_smembers t k s s' : same_at k s s' → smembers t k s' = smembers t k s.
Proof.
  intros H. unfold smembers. rewrite (same_at_expired t k s s' H).
  destruct H as (_ & -> & _). done.
Qed.

(** A command on one key leaves every other key as it is. *)
Lemma del_other k k' s : k ≠ k' → same_at k' s (del k s).
Proof. intros Hk. unfold same_at, del. simpl. by rewrite !lookup_delete_ne. Qed.

Lemma touch_other t k k' s : k ≠ k' → same_at k' s (touch t k s).
Proof. intros Hk. unfold touch. destruct (expired t k s); [by apply del_other | done]. Qed.

Lemma zremrangebyscore_other t k lo hi k' s :
  k ≠ k' → same_at k' s (zremrangebyscore t k lo hi s).
Proof.
  intros Hk. unfold zremrangebyscore.
  eapply same_at_trans; [by apply (touch_other t k) |].
  destruct (zsets (touch t k s) !! k); [|done].
  case_decide; [by apply del_other |].
  unfold same_at. simpl. by rewrite lookup_insert_ne.
Qed.

Lemma zadd_other t k sc m k' s : k ≠ k' → same_at k' s (zadd t k sc m s).
Proof.
  intros Hk. unfold zadd.
  eapply same_at_trans; [by apply (touch_other t k) |].
  unfold same_at. simpl. by rewrite lookup_insert_ne.
Qed.

Lemma sadd_other t k m k' s : k ≠ k' → same_at k' s (sadd t k m s).
Proof.
  intros Hk. unfold sadd.
  eapply same_at_trans; [by apply (touch_other t k) |].
  unfold same_at. simpl. by rewrite lookup_insert_ne.
Qed.

Lemma srem_other t k m k' s : k ≠ k' → same_at k' s (srem t k m s).
Proof.
  intros Hk. unfold srem.
  eapply same_at_trans; [by apply (touch_other t k) |].
  destruct (sets (touch t k s) !! k); [|done].
  case_decide; [by apply del_other |].
  unfold same_at. simpl. by rewrite lookup_insert_ne.
Qed.

Lemma expire_other t k secs k' s : k ≠ k' → same_at k' s (expire t k secs s).
Proof.
  intros Hk. unfold expire.
  eapply same_at_trans; [by apply (touch_other t k) |].
  destruct (exists_key k (touch t k s)); [|done].
  destruct (secs <=? 0); [by apply del_other |].
  unfold same_at. simpl. by rewrite lookup_insert_ne.
Qed.

(** The key a command works on, once [touch] has dealt with its time. *)
Lemma touch_live t k s : expired t k (touch t k s) = false.
Proof.
  unfold touch. destruct (expired t k s) eqn:He; [|done].
  unfold expired, del. simpl. by rewrite lookup_delete_eq.
Qed.

Lemma touch_zsets t k s : default ∅ (zsets (touch t k s) !! k) = zmembers t k s.
Proof.
  unfold zmembers, touch. destruct (expired t k s); [|done].
  unfold del. simpl. by rewrite lookup_delete_eq.
Qed.

Lemma touch_sets t k s : default ∅ (sets (touch t k s) !! k) = smembers t k s.
Proof.
  unfold smembers, touch. destruct (expired t k s); [|done].
  unfold del. simpl. by rewrite lookup_delete_eq.
Qed.

Lemma zmembers_live t k s :
  expired t k s = false → zmembers t k s = default ∅ (zsets s !! k).
Proof. unfold zmembers. by intros ->. Qed.

Lemma smembers_live t k s :
  expired t k s = false → smembers t k s = default ∅ (sets s !! k).
Proof. unfold smembers. by intros ->. Qed.

Lemma zmembers_del t k s : zmembers t k (del k s) = ∅.
Proof.
  unfold zmembers, expired, del. simpl. by rewrite !lookup_delete_eq.
Qed.

Lemma smembers_del t k s : smembers t k (del k s) = ∅.
Proof.
  unfold smembers, expired, del. simpl. by rewrite !lookup_delete_eq.
Qed.

Lemma zmembers_zremrangebyscore t k lo hi s :
  zmembers t k (zremrangebyscore t k lo hi s)
  = filter (fun p => ¬ in_range lo hi p) (zmembers t k s).
Proof.
  unfold zremrangebyscore. rewrite <- (touch_zsets t k s).
  pose proof (touch_live t k s) as Hl. revert Hl.
  generalize (touch t k s). intros s' Hl.
  destruct (zsets s' !! k) as [z|] eqn:Hz; simpl.
  - case_decide as Hempty.
    + by rewrite zmembers_del.
    + rewrite zmembers_live by exact Hl. simpl. by rewrite lookup_insert_eq.
  - rewrite zmembers_live by exact Hl. rewrite Hz. simpl. by rewrite map_filter_empty.
Qed.

Lemma smembers_srem t k m s :
  smembers t k (srem t k m s) = smembers t k s ∖ {[m]}.
Proof.
  unfold srem. rewrite <- (touch_sets t k s).
  pose proof (touch_live t k s) as Hl. revert Hl.
  generalize (touch t k s). intros s' Hl.
  destruct (sets s' !! k) as [X|] eqn:HX; simpl.
  - case_decide as Hempty.
    + by rewrite smembers_del.
    + rewrite smembers_live by exact Hl. simpl. by rewrite lookup_insert_eq.
  - rewrite smembers_live by exact Hl. rewrite HX. simpl.
    symmetry. apply empty_difference_L.
Qed.

Lemma zadd_at t k sc m s :
  zsets (zadd t k sc m s) !! k = Some (<[m := sc]> (zmembers t k s))
  ∧ expired t k (zadd t k sc m s) = false.
Proof.
  unfold zadd. split.
  - simpl. by rewrite lookup_insert_eq, touch_zsets.
  - exact (touch_live t k s).
Qed.

Lemma sadd_at t k m s :
  sets (sadd t k m s) !! k = Some ({[m]} ∪ smembers t k s)
  ∧ expired t k (sadd t k m s) = false.
Proof.
  unfold sadd. split.
  - simpl. by rewrite lookup_insert_eq, touch_sets.
  - exact (touch_live t k s).
Qed.

Lemma touch_id t k s : expired t k s = false → touch t k s = s.
Proof. unfold touch. by intros ->. Qed.

Lemma expire_at t k secs s :
  0 < secs → expired t k s = false → exists_key k s = true →
  zsets (expire t k secs s) !! k = zsets s !! k
  ∧ sets (expire t k secs s) !! k = sets s !! k
  ∧ expiry (expire t k secs s) !! k = Some (t + 1000 * secs).
Proof.
  intros Hs Hl He. unfold expire. rewrite (touch_id t k s Hl), He.
  destruct (Z.leb_spec secs 0); [lia|]. simpl. by rewrite lookup_insert_eq.
Qed.

Lemma exists_key_zset k s z : zsets s !! k = Some z → exists_key k s = true.
Proof.
  intros H. unfold exists_key. rewrite bool_decide_eq_true_2; [done | by eexists].
Qed.

Lemma exists_key_set k s X : sets s !! k = Some X → exists_key k s = true.
Proof.
  intros H. unfold exists_key.
  rewrite (bool_decide_eq_true_2 (is_Some (sets s !! k))); [|by eexists].
  apply orb_true_r.
Qed.

(** [trackRequest] throws while it builds its first command: the second
    argument of [zadd] is the number [now]. Nothing is sent. *)
Lemma trackRequest_throws t rnd lim u d s :
  trackRequest t rnd lim u d s
  = (Throw (TypeError (in_operator_message (pretty (seconds t)))), s).
Proof. reflexivity. Qed.

End LimiterFacts.

(** ** Admission *)

Section Admission.
Import Limiter.

Lemma purge_user t lim u d s :
  zmembers t (userKey u) (purge t lim u d s)
  = filter (fun p => ¬ in_range 0 (seconds t - user_window lim) p)
           (zmembers t (userKey u) s).
Proof.
  unfold purge. cbv zeta.
  rewrite (same_at_zmembers t (userKey u) _ _
             (zremrangebyscore_other t (domainKey d) _ _ (userKey u) _
                (not_eq_sym (userKey_ne_domainKey u d)))).
  apply zmembers_zremrangebyscore.
Qed.

Lemma purge_domain t lim u d s :
  zmembers t (domainKey d) (purge t lim u d s)
  = filter (fun p => ¬ in_range 0 (seconds t - domain_window lim) p)
           (zmembers t (domainKey d) s).
Proof.
  unfold purge. cbv zeta. rewrite zmembers_zremrangebyscore. f_equal.
  apply same_at_zmembers, zremrangebyscore_other, userKey_ne_domainKey.
Qed.

Lemma purge_concurrent t lim u d s k :
  k ≠ userKey u → k ≠ domainKey d → same_at k s (purge t lim u d s).
Proof.
  intros Hu Hd. unfold purge. cbv zeta.
  eapply same_at_trans; apply zremrangebyscore_other; done.
Qed.

(** C6. Admission runs [isAllowed] and then [trackRequest]. The purge
    comes first: from the user's and from the domain's window it removes
    the entries whose score lies in [0, now - W], so every entry older
    than [now - W] goes and every entry newer than it stays, and it leaves
    the concurrency set alone. Then, on the purged store and in this
    order: the user window holding [Lu] entries or more throws the user
    rate limit; else the domain window holding [Ld] or more throws the
    domain rate limit; else the concurrency set holding [C] or more throws
    the concurrency limit. Otherwise [trackRequest] runs, and throws the
    [TypeError] of the client's [zadd], which is handed the number [now]
    where it takes an object: no request id is returned and nothing is
    inserted, the store is the purged one. So it is for the first request
    of a user on an empty store. *)
Theorem c6_admission_checks_then_throws
    (t1 t2 : Z) (rnd : string) (lim : Limits) (u d : string) (s : Store) :
  let s1 := purge t1 lim u d s in
  let userCount := zcard t1 (userKey u) s1 in
  let domainCount := zcard t1 (domainKey d) s1 in
  let concurrentCount := scard t1 (concurrentKey d) s1 in
  (zmembers t1 (userKey u) s1
     = filter (fun p => ¬ in_range 0 (seconds t1 - user_window lim) p)
              (zmembers t1 (userKey u) s)
   ∧ zmembers t1 (domainKey d) s1
     = filter (fun p => ¬ in_range 0 (seconds t1 - domain_window lim) p)
              (zmembers t1 (domainKey d) s)
   ∧ (∀ m score, zmembers t1 (userKey u) s !! m = Some score →
        (0 ≤ score < seconds t1 - user_window lim →
           zmembers t1 (userKey u) s1 !! m = None)
        ∧ (seconds t1 - user_window lim < score →
           zmembers t1 (userKey u) s1 !! m = Some score))
   ∧ (∀ m score, zmembers t1 (domainKey d) s !! m = Some score →
        (0 ≤ score < seconds t1 - domain_window lim →
           zmembers t1 (domainKey d) s1 !! m = None)
        ∧ (seconds t1 - domain_window lim < score →
           zmembers t1 (domainKey d) s1 !! m = Some score))
   ∧ smembers t1 (concurrentKey d) s1 = smembers t1 (concurrentKey d) s)
  ∧ (user_requests lim ≤ userCount →
       admission t1 t2 rnd lim u d s = (Throw UserRateLimit, s1))
  ∧ (userCount < user_requests lim → domain_requests lim ≤ domainCount →
       admission t1 t2 rnd lim u d s = (Throw DomainRateLimit, s1))
  ∧ (userCount < user_requests lim → domainCount < domain_requests lim →
     domain_concurrent lim ≤ concurrentCount →
       admission t1 t2 rnd lim u d s = (Throw TooManyConcurrent, s1))
  ∧ (userCount < user_requests lim → domainCount < domain_requests lim →
     concurrentCount < domain_concurrent lim →
       admission t1 t2 rnd lim u d s
       = (Throw (TypeError (in_operator_message (pretty (seconds t2)))), s1))
  ∧ (∀ rid s2, admission t1 t2 rnd lim u d s ≠ (Ok rid, s2))
  ∧ admission 1000 1000 "0.5" default_limits "alice" "example.com" empty_store
    = (Throw (TypeError (in_operator_message "1")),
       empty_store).
Proof.
  intros s1 userCount domainCount concurrentCount.
  assert (Hfilter : ∀ (z : gmap string Z) hi m score, z !! m = Some score →
    (0 ≤ score < hi → filter (fun p => ¬ in_range 0 hi p) z !! m = None)
    ∧ (hi < score → filter (fun p => ¬ in_range 0 hi p) z !! m = Some score)).
  { intros z hi m score Hm. split; intros Hs.
    - apply map_lookup_filter_None. right. intros x Hx Hn. apply Hn.
      rewrite Hm in Hx. injection Hx as <-. unfold in_range. simpl. lia.
    - apply map_lookup_filter_Some. split; [done|]. unfold in_range. simpl. lia. }
  split; [|split; [|split; [|split; [|split; [|split]]]]].
  - split; [apply purge_user|]. split; [apply purge_domain|].
    split; [|split].
    + intros m score Hm. unfold s1. rewrite purge_user. by apply Hfilter.
    + intros m score Hm. unfold s1. rewrite purge_domain. by apply Hfilter.
    + apply same_at_smembers, purge_concurrent.
      * apply not_eq_sym, userKey_ne_concurrentKey.
      * apply not_eq_sym, domainKey_ne_concurrentKey.
  - intros H. unfold admission, isAllowed. cbv zeta. fold s1. fold userCount.
    apply Z.leb_le in H. by rewrite H.
  - intros Hu H. unfold admission, isAllowed. cbv zeta. fold s1.
    fold userCount. fold domainCount.
    apply Z.leb_gt in Hu. apply Z.leb_le in H. by rewrite Hu, H.
  - intros Hu Hd H. unfold admission, isAllowed. cbv zeta. fold s1.
    fold userCount. fold domainCount. fold concurrentCount.
    apply Z.leb_gt in Hu. apply Z.leb_gt in Hd. apply Z.leb_le in H.
    by rewrite Hu, Hd, H.
  - intros Hu Hd Hc. unfold admission, isAllowed. cbv zeta. fold s1.
    fold userCount. fold domainCount. fold concurrentCount.
    apply Z.leb_gt in Hu. apply Z.leb_gt in Hd. apply Z.leb_gt in Hc.
    rewrite Hu, Hd, Hc. apply trackRequest_throws.
  - intros rid s2. unfold admission.
    destruct (isAllowed t1 lim u d s) as [[ok|e] s']; [|done].
    by rewrite trackRequest_throws.
  - by vm_compute.
Qed.

End Admission.

(** ** Completion *)

Section Completion.
Import Limiter.

(** C7. Complete removes the request id from the domain's concurrency
    set and touches no other key: every user window and every domain
    window reads as before, at any time, and so does the concurrency set
    of any other domain; completing a request that holds a slot brings the
    count of the set down by one. But no admission ever takes a slot: with
    the concurrency cap at 3, each of four admissions for one domain with
    no Complete throws the [TypeError] of [trackRequest], the fourth as
    the first and not the concurrency limit, and the set stays empty. *)
Theorem c7_complete_frees_slot_only (t : Z) (d rid : string) (s : Store) :
  let s' := completeRequest t d rid s in
  smembers t (concurrentKey d) s' = smembers t (concurrentKey d) s ∖ {[rid]}
  ∧ (∀ t' u, zmembers t' (userKey u) s' = zmembers t' (userKey u) s)
  ∧ (∀ t' d', zmembers t' (domainKey d') s' = zmembers t' (domainKey d') s)
  ∧ (∀ t' d', d' ≠ d → smembers t' (concurrentKey d') s' = smembers t' (concurrentKey d') s)
  ∧ (∀ k, k ≠ concurrentKey d →
       zsets s' !! k = zsets s !! k ∧ sets s' !! k = sets s !! k
       ∧ expiry s' !! k = expiry s !! k)
  ∧ (rid ∈ smembers t (concurrentKey d) s →
       scard t (concurrentKey d) s' = scard t (concurrentKey d) s - 1)
  ∧ (let lim := default_limits in
     let a1 := admission 1000 1000 "0.11" lim "alice" "example.com" empty_store in
     let a2 := admission 2000 2000 "0.22" lim "alice" "example.com" a1.2 in
     let a3 := admission 3000 3000 "0.33" lim "bob" "example.com" a2.2 in
     let a4 := admission 4000 4000 "0.44" lim "bob" "example.com" a3.2 in
     domain_concurrent lim = 3
     ∧ a1.1 = Throw (TypeError (in_operator_message "1"))
     ∧ a2.1 = Throw (TypeError (in_operator_message "2"))
     ∧ a3.1 = Throw (TypeError (in_operator_message "3"))
     ∧ a4.1 = Throw (TypeError (in_operator_message "4"))
     ∧ a4.1 ≠ Throw TooManyConcurrent
     ∧ scard 5000 (concurrentKey "example.com") a4.2 = 0
     ∧ a4.2 = empty_store).
Proof.
  intros s'. unfold s', completeRequest.
  split; [apply smembers_srem|].
  split; [|split; [|split; [|split; [|split]]]].
  - intros t' u. apply same_at_zmembers, srem_other.
    apply not_eq_sym, userKey_ne_concurrentKey.
  - intros t' d'. apply same_at_zmembers, srem_other.
    apply not_eq_sym, domainKey_ne_concurrentKey.
  - intros t' d' Hd. apply same_at_smembers, srem_other.
    intros H. apply Hd. symmetry. by apply concurrentKey_inj.
  - intros k Hk. apply (srem_other t (concurrentKey d) rid k s). by apply not_eq_sym.
  - intros Hin. unfold scard. rewrite smembers_srem.
    rewrite size_difference by (by apply singleton_subseteq_l).
    rewrite size_singleton.
    assert (size (smembers t (concurrentKey d) s) ≠ 0%nat).
    { intros H0. apply size_empty_inv in H0. by rewrite (H0 rid) in Hin. }
    lia.
  - cbv zeta. split; [reflexivity|]. repeat split; by vm_compute.
Qed.

Lemma c7_complete_frees_slot_only_witness :
  let s := sadd 1000 (concurrentKey "example.com") "alice:1:0.11" empty_store in
  let s' := completeRequest 2000 "example.com" "alice:1:0.11" s in
  "alice:1:0.11" ∈ smembers 2000 (concurrentKey "example.com") s
  ∧ scard 2000 (concurrentKey "example.com") s'
    = scard 2000 (concurrentKey "example.com") s - 1
  ∧ smembers 2000 (concurrentKey "example.com") s'
    = smembers 2000 (concurrentKey "example.com") s ∖ {["alice:1:0.11"]}.
Proof.
  cbv zeta.
  assert (Hin : "alice:1:0.11" ∈ smembers 2000 (concurrentKey "example.com")
                  (sadd 1000 (concurrentKey "example.com") "alice:1:0.11" empty_store))
    by (apply (bool_decide_unpack _); by vm_compute).
  split; [exact Hin|].
  destruct (c7_complete_frees_slot_only 2000 "example.com" "alice:1:0.11"
    (sadd 1000 (concurrentKey "example.com") "alice:1:0.11" empty_store))
    as (Hs & _ & _ & _ & _ & Hcount & _).
  split; [exact (Hcount Hin) | exact Hs].
Defined.

End Completion.

(** * Further properties of the rate limiter *)

Section LimiterMetrics.
Import Limiter LimiterOps.

Lemma isAllowed_store t lim u d s : (isAllowed t lim u d s).2 = purge t lim u d s.
Proof.
  unfold isAllowed. cbv zeta.
  destruct (user_requests lim <=? _); [done|].
  destruct (domain_requests lim <=? _); [done|].
  by destruct (domain_concurrent lim <=? _).
Qed.

Lemma purge_user_count t lim u d s :
  zcard t (userKey u) (purge t lim u d s)
  = zcard t (userKey u)
      (zremrangebyscore t (userKey u) 0 (seconds t - user_window lim) s).
Proof.
  unfold zcard. by rewrite purge_user, zmembers_zremrangebyscore.
Qed.

Lemma purge_domain_count t lim u d s :
  zcard t (domainKey d) (purge t lim u d s)
  = zcard t (domainKey d)
      (zremrangebyscore t (domainKey d) 0 (seconds t - domain_window lim) s).
Proof.
  unfold zcard. by rewrite purge_domain, zmembers_zremrangebyscore.
Qed.

Lemma purge_concurrent_members t t' lim u d s :
  smembers t' (concurrentKey d) (purge t lim u d s) = smembers t' (concurrentKey d) s.
Proof.
  apply same_at_smembers, purge_concurrent.
  - apply not_eq_sym, userKey_ne_concurrentKey.
  - apply not_eq_sym, domainKey_ne_concurrentKey.
Qed.

(** X1. What the metrics report stays in range: with a limit that is not
    negative, [remaining] lies between 0 and the limit; with a positive
    window and a clock that is not negative, [resetIn] lies between 1 and
    the window. For the user metrics and for the domain metrics alike. *)
Theorem x1_metrics_in_range (t : Z) (lim : Limits) (u d : string) (s : Store) :
  0 ≤ user_requests lim → 0 ≤ domain_requests lim →
  0 < user_window lim → 0 < domain_window lim → 0 ≤ t →
  let mu := (getUserMetrics t lim u s).1 in
  let md := (getDomainMetrics t lim d s).1 in
  (0 ≤ um_remaining mu ≤ um_limit mu ∧ 1 ≤ um_resetIn mu ≤ user_window lim)
  ∧ (0 ≤ dm_remaining md ≤ dm_limit md ∧ 1 ≤ dm_resetIn md ≤ domain_window lim)
  ∧ 0 ≤ dm_concurrent_current md.
Proof.
  intros Hlu Hld Hwu Hwd Ht mu md.
  assert (Hnow : 0 ≤ seconds t) by (unfold seconds; apply Z.div_pos; lia).
  pose proof (Z.rem_bound_pos (seconds t) (user_window lim) Hnow Hwu) as Hru.
  pose proof (Z.rem_bound_pos (seconds t) (domain_window lim) Hnow Hwd) as Hrd.
  unfold mu, md, getUserMetrics, getDomainMetrics, zcard, scard. simpl.
  repeat split; lia.
Qed.

Lemma x1_metrics_in_range_witness :
  0 ≤ user_requests default_limits ∧ 0 < user_window default_limits ∧ 0 ≤ 5000
  ∧ 1 ≤ um_resetIn (getUserMetrics 5000 default_limits "alice" empty_store).1
      ≤ user_window default_limits.
Proof.
  assert (H1 : 0 ≤ user_requests default_limits) by (simpl; lia).
  assert (H2 : 0 ≤ domain_requests default_limits) by (simpl; lia).
  assert (H3 : 0 < user_window default_limits) by (simpl; lia).
  assert (H4 : 0 < domain_window default_limits) by (simpl; lia).
  assert (H5 : 0 ≤ 5000) by lia.
  split; [exact H1|]. split; [exact H3|]. split; [exact H5|].
  exact (proj2 (proj1
    (x1_metrics_in_range 5000 default_limits "alice" "example.com" empty_store
       H1 H2 H3 H4 H5))).
Defined.

(** X2. The metrics tell whether a request would be let in: at one
    instant and on one store, [isAllowed] returns true exactly when the
    user metrics and the domain metrics both report something remaining
    and the domain's current concurrency is below its limit. *)
Theorem x2_metrics_predict_isAllowed
    (t : Z) (lim : Limits) (u d : string) (s : Store) :
  let mu := (getUserMetrics t lim u s).1 in
  let md := (getDomainMetrics t lim d s).1 in
  (isAllowed t lim u d s).1 = Ok true
  ↔ 0 < um_remaining mu ∧ 0 < dm_remaining md
    ∧ dm_concurrent_current md < dm_concurrent_limit md.
Proof.
  intros mu md. unfold mu, md, getUserMetrics, getDomainMetrics, isAllowed.
  cbv zeta. cbn [fst um_remaining dm_remaining dm_concurrent_current dm_concurrent_limit].
  rewrite purge_user_count, purge_domain_count.
  assert (Hc : scard t (concurrentKey d) (purge t lim u d s)
               = scard t (concurrentKey d)
                   (zremrangebyscore t (domainKey d) 0
                      (seconds t - domain_window lim) s)).
  { unfold scard. rewrite purge_concurrent_members. f_equal. f_equal. symmetry.
    apply same_at_smembers, zremrangebyscore_other, domainKey_ne_concurrentKey. }
  rewrite Hc.
  destruct (Z.leb_spec (user_requests lim)
    (zcard t (userKey u) (zremrangebyscore t (userKey u) 0
       (seconds t - user_window lim) s))); [split; [done | lia]|].
  destruct (Z.leb_spec (domain_requests lim)
    (zcard t (domainKey d) (zremrangebyscore t (domainKey d) 0
       (seconds t - domain_window lim) s))); [split; [done | lia]|].
  destruct (Z.leb_spec (domain_concurrent lim)
    (scard t (concurrentKey d) (zremrangebyscore t (domainKey d) 0
       (seconds t - domain_window lim) s))); [split; [done | lia]|].
  split; [lia | done].
Qed.

Lemma setLimits_positive nl lim :
  limits_positive lim → limits_positive (setLimits nl lim).
Proof.
  destruct nl as [[[ur uw]|] [[dr dw dc]|]]; intros (H1 & H2 & H3 & H4 & H5);
    unfold setLimits, limits_positive, gt0; cbn [nl_user nl_domain nu_requests
      nu_window nd_requests nd_window nd_concurrent];
    repeat match goal with
           | |- context [match ?o with Some _ => _ | None => _ end] =>
               destruct o as [?|]
           | |- context [0 <? ?n] => destruct (Z.ltb_spec 0 n)
           end; simpl; repeat split; lia.
Qed.

(** X3. [setLimits] takes a new value for a field only when that value
    is positive: starting from the default limits, after any sequence of
    calls every limit and every window is positive. *)
Theorem x3_setLimits_keeps_limits_positive (calls : list NewLimits) :
  limits_positive (foldl (fun lim nl => setLimits nl lim) default_limits calls).
Proof.
  pose proof setLimits_positive as Hstep.
  assert (Hall : ∀ lim, limits_positive lim →
    limits_positive (foldl (fun lim nl => setLimits nl lim) lim calls)).
  { induction calls as [|nl calls IH]; intros lim Hlim; [done|].
    simpl. apply IH. by apply Hstep. }
  apply Hall. unfold limits_positive. simpl. lia.
Qed.

Lemma isAllowed_repeat t lim u d s :
  (isAllowed t lim u d (isAllowed t lim u d s).2).1 = (isAllowed t lim u d s).1.
Proof.
  rewrite isAllowed_store.
  assert (Hidem : ∀ hi (z : gmap string Z),
    filter (fun p => ¬ in_range 0 hi p) (filter (fun p => ¬ in_range 0 hi p) z)
    = filter (fun p => ¬ in_range 0 hi p) z).
  { intros hi z. rewrite map_filter_filter. apply map_filter_ext. tauto. }
  unfold isAllowed. cbv zeta. unfold zcard, scard.
  rewrite !purge_user, !purge_domain, !Hidem, !purge_concurrent_members.
  destruct (user_requests lim <=? _); [done|].
  destruct (domain_requests lim <=? _); [done|].
  by destruct (domain_concurrent lim <=? _).
Qed.

(** X4. [isAllowed] consumes nothing: it only removes entries from the
    two windows, leaves the concurrency set as it is, and asked again at
    the same instant gives the same answer. *)
Theorem x4_isAllowed_only_purges (t : Z) (lim : Limits) (u d : string) (s : Store) :
  let r := isAllowed t lim u d s in
  (isAllowed t lim u d r.2).1 = r.1
  ∧ zmembers t (userKey u) r.2 ⊆ zmembers t (userKey u) s
  ∧ zmembers t (domainKey d) r.2 ⊆ zmembers t (domainKey d) s
  ∧ zcard t (userKey u) r.2 ≤ zcard t (userKey u) s
  ∧ zcard t (domainKey d) r.2 ≤ zcard t (domainKey d) s
  ∧ (∀ t', smembers t' (concurrentKey d) r.2 = smembers t' (concurrentKey d) s).
Proof.
  intros r. unfold r.
  split; [apply isAllowed_repeat|]. rewrite !isAllowed_store.
  split; [|split; [|split; [|split]]].
  - rewrite purge_user. apply map_filter_subseteq.
  - rewrite purge_domain. apply map_filter_subseteq.
  - unfold zcard. rewrite purge_user. apply inj_le, map_subseteq_size, map_filter_subseteq.
  - unfold zcard. rewrite purge_domain. apply inj_le, map_subseteq_size, map_filter_subseteq.
  - intros t'. apply purge_concurrent_members.
Qed.

Lemma zremrangebyscore_empty t k lo hi :
  zremrangebyscore t k lo hi empty_store = empty_store.
Proof.
  unfold zremrangebyscore, touch, expired. cbn [expiry zsets empty_store].
  by rewrite !lookup_empty.
Qed.

Lemma srem_empty t k m : srem t k m empty_store = empty_store.
Proof.
  unfold srem, touch, expired. cbn [expiry sets empty_store].
  by rewrite !lookup_empty.
Qed.

Lemma isAllowed_empty t lim u d :
  limits_positive lim → isAllowed t lim u d empty_store = (Ok true, empty_store).
Proof.
  intros (H1 & _ & H3 & _ & H5).
  unfold isAllowed, purge. cbv zeta. rewrite !zremrangebyscore_empty.
  unfold zcard, scard, zmembers, smembers, expired.
  cbn [expiry zsets sets empty_store]. rewrite !lookup_empty. cbn [default].
  rewrite !map_size_empty, !size_empty. change (Z.of_nat 0) with 0.
  destruct (Z.leb_spec (user_requests lim) 0); [lia|].
  destruct (Z.leb_spec (domain_requests lim) 0); [lia|].
  destruct (Z.leb_spec (domain_concurrent lim) 0); [lia | done].
Qed.

Lemma exec_empty c lim :
  limits_positive lim →
  ∃ lim', exec c (lim, empty_store) = (lim', empty_store) ∧ limits_positive lim'.
Proof.
  intros Hlim. destruct c as [t [u d|rnd u d|d rid|u|d|nl]]; cbn [exec].
  - exists lim. by rewrite isAllowed_empty.
  - exists lim. by rewrite trackRequest_throws.
  - exists lim. unfold completeRequest. by rewrite srem_empty.
  - exists lim. unfold getUserMetrics. cbv zeta. cbn [snd].
    by rewrite zremrangebyscore_empty.
  - exists lim. unfold getDomainMetrics. cbv zeta. cbn [snd].
    by rewrite zremrangebyscore_empty.
  - exists (setLimits nl lim). split; [done | by apply setLimits_positive].
Qed.

(** X24. The limiter never limits. No method adds an entry to a window
    or to a concurrency set: [trackRequest] throws before anything is
    sent, and the others only remove. So from the default limits and the
    empty store, after any sequence of calls of the methods, whenever they
    are made, the store is still empty, the limits are positive, and
    [isAllowed] lets every user in for every domain. *)
Theorem x24_limiter_never_limits (cs : list (Z * Call)) (t : Z) (u d : string) :
  let st := run cs (default_limits, empty_store) in
  st.2 = empty_store
  ∧ limits_positive st.1
  ∧ isAllowed t st.1 u d st.2 = (Ok true, empty_store).
Proof.
  assert (Hrun : ∀ lim, limits_positive lim →
    ∃ lim', run cs (lim, empty_store) = (lim', empty_store) ∧ limits_positive lim').
  { induction cs as [|c cs IH]; intros lim Hlim; [by exists lim|].
    destruct (exec_empty c lim Hlim) as (lim1 & Hexec & Hlim1).
    cbn [run fold_left]. rewrite Hexec. by apply IH. }
  intros st. unfold st.
  destruct (Hrun default_limits) as (lim' & -> & Hlim').
  { unfold limits_positive. simpl. lia. }
  cbn [fst snd]. split; [done|]. split; [done|]. by apply isAllowed_empty.
Qed.

End LimiterMetrics.

Section MiddlewareFacts.
Import Limiter LimiterOps Middleware.

Lemma getUserMetrics_other t lim u k s :
  k ≠ userKey u → same_at k s (getUserMetrics t lim u s).2.
Proof. intros Hk. unfold getUserMetrics. cbv zeta. cbn [snd]. by apply zremrangebyscore_other. Qed.

Lemma isAllowed_other t lim u d k s :
  k ≠ userKey u → k ≠ domainKey d → same_at k s (isAllowed t lim u d s).2.
Proof. intros Hu Hd. rewrite isAllowed_store. by apply purge_concurrent. Qed.

Lemma includes_pretty_N_go x s :
  includes "rate limit" s = false → includes "rate limit" (pretty_N_go x s) = false.
Proof.
  revert s. induction (N.lt_wf_0 x) as [x _ IH]; intros s Hs.
  assert (x = 0 ∨ 0 < x)%N as [->|Hx] by lia.
  - by rewrite pretty_N_go_0.
  - rewrite pretty_N_go_step by done. apply IH; [by apply N.div_lt|].
    unfold pretty_N_char. by repeat case_match.
Qed.

Lemma includes_pretty_Z (n : Z) : includes "rate limit" (pretty n) = false.
Proof.
  destruct n as [|p|p]; [done| |].
  - unfold pretty, pretty_Z, pretty, pretty_positive, pretty, pretty_N.
    case_decide; [done|]. by apply includes_pretty_N_go.
  - unfold pretty, pretty_Z.
    change (includes "rate limit" (pretty (N.pos p)) = false).
    unfold pretty, pretty_N.
    case_decide; [done|]. by apply includes_pretty_N_go.
Qed.

(** The message of the client's [TypeError] does not contain "rate limit". *)
Lemma includes_in_operator_message (n : Z) :
  includes "rate limit" (in_operator_message (pretty n)) = false.
Proof.
  unfold in_operator_message.
  change (includes "rate limit" (in_operator_message (pretty n)))
    with (includes "rate limit" (pretty n)).
  apply includes_pretty_Z.
Qed.

(** X8. The middleware lets no request through. A request with a user id,
    and with a url where one is needed, that passes the three checks of
    [isAllowed] reaches [trackRequest], which throws the [TypeError] of the
    client's [zadd]; the message does not contain "rate limit", so the
    error goes to [next(error)]. Nothing has been tracked: the store is
    the purged one. On no input at all is [next()] reached. *)
Theorem x8_middleware_never_calls_next
    (t1 t2 t3 : Z) (rnd : string) (lim : Limits) (userId domain : option string)
    (path : string) (s : Store) :
  let u := default "" userId in
  let d := if includes "/crawl" path || includes "/recheck" path
           then default "" domain else "api" in
  let r := rateLimiterMiddleware t1 t2 t3 rnd lim userId domain path s in
  (∀ h rid dom, r.1 ≠ Next h rid dom)
  ∧ (truthy userId = true →
     ((includes "/crawl" path || includes "/recheck" path) = true →
        truthy domain = true) →
     (isAllowed t1 lim u d s).1 = Ok true →
     r = (NextError (TypeError (in_operator_message (pretty (seconds t2)))),
          purge t1 lim u d s)).
Proof.
  intros u d r. unfold r, rateLimiterMiddleware. cbv zeta. fold u. fold d. split.
  - intros h rid dom.
    destruct (negb (truthy userId)); [done|].
    destruct ((includes "/crawl" path || includes "/recheck" path)
              && negb (truthy domain)); [done|].
    destruct (isAllowed t1 lim u d s) as [[ok|e] s1].
    + rewrite trackRequest_throws. cbn [message].
      by rewrite includes_in_operator_message.
    + by destruct (includes "rate limit" (message e)).
  - intros Hu Hd Hok. rewrite Hu. cbn [negb].
    assert (Hneeds : (includes "/crawl" path || includes "/recheck" path)
                     && negb (truthy domain) = false).
    { destruct (includes "/crawl" path || includes "/recheck" path); [|done].
      by rewrite (Hd eq_refl). }
    rewrite Hneeds.
    pose proof (isAllowed_store t1 lim u d s) as Hst.
    destruct (isAllowed t1 lim u d s) as [[ok|e] s1]; [|done].
    cbn [snd] in Hst. subst s1.
    rewrite trackRequest_throws. cbn [message].
    by rewrite includes_in_operator_message.
Qed.

Lemma x8_middleware_never_calls_next_witness :
  truthy (Some "alice") = true
  ∧ (isAllowed 1000 default_limits "alice" "example.com" empty_store).1 = Ok true
  ∧ rateLimiterMiddleware 1000 1000 1000 "0.5" default_limits
      (Some "alice") (Some "example.com") "/api/crawler/crawl" empty_store
    = (NextError (TypeError (in_operator_message (pretty (seconds 1000)))),
       purge 1000 default_limits "alice" "example.com" empty_store).
Proof.
  assert (H1 : truthy (Some "alice") = true) by reflexivity.
  assert (H2 : (includes "/crawl" "/api/crawler/crawl"
                || includes "/recheck" "/api/crawler/crawl") = true →
               truthy (Some "example.com") = true) by reflexivity.
  assert (H3 : (isAllowed 1000 default_limits "alice" "example.com" empty_store).1
               = Ok true) by (by vm_compute).
  split; [exact H1|]. split; [exact H3|].
  exact (proj2 (x8_middleware_never_calls_next 1000 1000 1000 "0.5" default_limits
                  (Some "alice") (Some "example.com") "/api/crawler/crawl"
                  empty_store) H1 H2 H3).
Defined.

(** X9. Of the three errors [isAllowed] throws, the middleware answers
    the two window limits with status 429, the error's message and a
    retry hint of 3600 seconds; the concurrency limit, whose message does
    not contain "rate limit", goes to [next(error)] instead. In each case
    nothing is tracked: the store is the one [isAllowed] left. *)
Theorem x9_concurrency_error_is_not_429
    (t1 t2 t3 : Z) (rnd : string) (lim : Limits) (userId domain : option string)
    (path : string) (s s1 : Store) (e : Error) :
  truthy userId = true →
  ((includes "/crawl" path || includes "/recheck" path) = true → truthy domain = true) →
  let u := default "" userId in
  let d := if includes "/crawl" path || includes "/recheck" path
           then default "" domain else "api" in
  isAllowed t1 lim u d s = (Throw e, s1) →
  (e = UserRateLimit ∨ e = DomainRateLimit ∨ e = TooManyConcurrent)
  ∧ rateLimiterMiddleware t1 t2 t3 rnd lim userId domain path s
    = (match e with
       | TooManyConcurrent => NextError TooManyConcurrent
       | _ => Respond 429 (message e) (Some 3600)
       end, s1).
Proof.
  intros Hu Hd u d Hthrow.
  assert (He : e = UserRateLimit ∨ e = DomainRateLimit ∨ e = TooManyConcurrent).
  { unfold isAllowed in Hthrow. cbv zeta in Hthrow.
    destruct (user_requests lim <=? _); [injection Hthrow as <- _; auto|].
    destruct (domain_requests lim <=? _); [injection Hthrow as <- _; auto|].
    destruct (domain_concurrent lim <=? _); [injection Hthrow as <- _; auto | done]. }
  split; [exact He|].
  unfold rateLimiterMiddleware. cbv zeta. rewrite Hu. cbn [negb].
  unfold d, u in Hthrow. clear d u.
  destruct (includes "/crawl" path || includes "/recheck" path) eqn:Hneeds.
  - rewrite (Hd eq_refl). cbn [negb andb].
    rewrite Hthrow. by destruct He as [->| [->| ->]].
  - cbn [andb]. rewrite Hthrow. by destruct He as [->| [->| ->]].
Qed.

Lemma x9_concurrency_error_is_not_429_witness :
  let full := sadd 1000 (concurrentKey "example.com") "carol:1:0.3"
                (sadd 1000 (concurrentKey "example.com") "bob:1:0.2"
                   (sadd 1000 (concurrentKey "example.com") "alice:1:0.1"
                      empty_store)) in
  let r := rateLimiterMiddleware 2000 2000 2000 "0.4" default_limits
             (Some "dave") (Some "example.com") "/api/crawler/crawl" full in
  truthy (Some "dave") = true
  ∧ (isAllowed 2000 default_limits "dave" "example.com" full).1 = Throw TooManyConcurrent
  ∧ r.1 = NextError TooManyConcurrent.
Proof.
  set (full := sadd 1000 (concurrentKey "example.com") "carol:1:0.3"
                (sadd 1000 (concurrentKey "example.com") "bob:1:0.2"
                   (sadd 1000 (concurrentKey "example.com") "alice:1:0.1"
                      empty_store))).
  cbv zeta.
  assert (H1 : truthy (Some "dave") = true) by reflexivity.
  assert (H2 : (includes "/crawl" "/api/crawler/crawl"
                || includes "/recheck" "/api/crawler/crawl") = true →
               truthy (Some "example.com") = true) by reflexivity.
  assert (H3 : isAllowed 2000 default_limits "dave" "example.com" full
               = (Throw TooManyConcurrent,
                  (isAllowed 2000 default_limits "dave" "example.com" full).2))
    by (by vm_compute).
  split; [exact H1|]. split; [by rewrite H3|].
  pose proof (proj2 (x9_concurrency_error_is_not_429 2000 2000 2000 "0.4" default_limits
    (Some "dave") (Some "example.com") "/api/crawler/crawl" full _ _ H1 H2 H3)) as H.
  by rewrite H.
Defined.

End MiddlewareFacts.

(** * Properties of the routes and of the crawl that use the ledger *)

Section RecheckRoutes.
Import Credit Middleware Routes.

Lemma settle_insufficient (parsed : string → string) now1 now2 u c op reason work s :
  getBalance s u < c →
  recheck_settle parsed now1 now2 u c op reason work s
  = (Failure 500 "Insufficient credits", s).
Proof.
  intros H. unfold recheck_settle, reserveCredits.
  apply Z.ltb_lt in H. by rewrite H.
Qed.

Lemma settle_work_thrown (parsed : string → string) now1 now2 u c op reason msg s :
  c ≤ getBalance s u →
  ∃ s', recheck_settle parsed now1 now2 u c op reason (Thrown msg) s = (Failure 500 msg, s')
    ∧ (∀ v, getBalance s' v
            = getBalance s v - (if decide (u = v) then c else 0)
              + (if decide (parsed u = v) then c else 0))
    ∧ credit_tx s' = credit_tx s ∧ credit_history s' = credit_history s
    ∧ credit_reservation s' !! op = None.
Proof.
  intros H. unfold recheck_settle, reserveCredits.
  apply Z.ltb_ge in H. rewrite H. cbv zeta.
  unfold releaseReservation. cbn [credit_reservation reserve_pipeline].
  rewrite lookup_insert_eq. cbn [fmap option_fmap option_map].
  eexists. split; [reflexivity|].
  split; [|split; [done | split; [done|]]].
  - intros v. rewrite getBalance_release_pipeline, getBalance_reserve_pipeline.
    cbn [negb andb rv_userId rv_amount read_reservation].
    destruct (decide (u = v)); destruct (decide (parsed u = v)).
    + rewrite bool_decide_eq_true_2 by done. lia.
    + rewrite bool_decide_eq_false_2 by done. lia.
    + rewrite bool_decide_eq_true_2 by done. lia.
    + rewrite bool_decide_eq_false_2 by done. lia.
  - cbn [credit_reservation release_pipeline]. by rewrite lookup_delete_eq.
Qed.

Lemma settle_done (parsed : string → string) now1 now2 u c op reason s :
  c ≤ getBalance s u →
  let held := release_pipeline op true
                {| rv_userId := u; rv_amount := c; rv_timestamp := now1 |}
                (reserve_pipeline now1 u c op s) in
  recheck_settle parsed now1 now2 u c op reason (Done tt) s
  = if getBalance s u - c <? c
    then (Failure 500 "Reservation not found", held)
    else (Success tt, deduct_pipeline now2 u c reason held).
Proof.
  intros H held. unfold recheck_settle, reserveCredits.
  apply Z.ltb_ge in H. rewrite H. cbv zeta.
  unfold releaseReservation at 1. cbn [credit_reservation reserve_pipeline].
  rewrite lookup_insert_eq. cbn [fmap option_fmap option_map].
  fold (reserve_pipeline now1 u c op s).
  change (release_pipeline op true (read_reservation parsed _)
            (reserve_pipeline now1 u c op s)) with held.
  assert (Hb : getBalance held u = getBalance s u - c).
  { unfold held. rewrite getBalance_release_pipeline, getBalance_reserve_pipeline.
    cbn [negb andb]. by case_decide. }
  unfold deductCredits. rewrite Hb.
  destruct (getBalance s u - c <? c); [|done].
  unfold releaseReservation.
  assert (Hgone : credit_reservation held !! op = None).
  { unfold held. cbn [credit_reservation release_pipeline]. by rewrite lookup_delete_eq. }
  by rewrite Hgone.
Qed.

Lemma recheck_costs (issues : list (string * string)) :
  calculateRecheckCost 1 = 1
  ∧ calculateRecheckCost (inject_Z (Z.of_nat (length issues)))
    = (Z.of_nat (length issues) + 1) / 2.
Proof. split; [reflexivity | apply Qceiling_half]. Qed.

(** X10. A recheck that succeeds is charged twice. With the parameters
    present and a balance of at least twice the cost, the bulk route
    answers with success and leaves the user's balance lower by twice
    [ceil(n / 2)] for [n] issues, with one transaction of minus the cost
    written; the single-issue route, whose cost is 1, leaves it lower
    by 2. *)
Theorem x10_recheck_charges_the_cost_twice (parsed : string → string)
    (now1 now2 : Z) (issueId : string) (url type userId : option string)
    (issues : list (string * string)) (s : Store) :
  truthy url = true → truthy type = true → truthy userId = true →
  let u := default "" userId in
  let cost := (Z.of_nat (length issues) + 1) / 2 in
  2 * cost ≤ getBalance s u →
  (∃ s', recheckUrlRoute parsed now1 now2 url (Some issues) userId (Done tt) s
         = (Success tt, s')
     ∧ getBalance s' u = getBalance s u - 2 * cost
     ∧ tx_amount <$> (credit_tx s' !! now2) = Some (- cost)
     ∧ credit_reservation s' !! default "" url = None)
  ∧ (2 ≤ getBalance s u →
     ∃ s', recheckIssueRoute parsed now1 now2 issueId url type userId (Done tt) s
           = (Success tt, s')
       ∧ getBalance s' u = getBalance s u - 2).
Proof.
  intros Hurl Htype Huser u cost Hbal.
  destruct (recheck_costs issues) as [H1 Hn]. fold cost in Hn.
  assert (Hcost : 0 ≤ cost) by (unfold cost; Z.to_euclidean_division_equations; lia).
  assert (Hfinal : ∀ c reason held, getBalance held u = getBalance s u - c →
    getBalance (deduct_pipeline now2 u c reason held) u = getBalance s u - 2 * c).
  { intros c reason held Hh. rewrite getBalance_deduct_pipeline.
    case_decide; [lia | done]. }
  assert (Hheld : ∀ c op, getBalance (release_pipeline op true
      {| rv_userId := u; rv_amount := c; rv_timestamp := now1 |}
      (reserve_pipeline now1 u c op s)) u = getBalance s u - c).
  { intros c op. rewrite getBalance_release_pipeline, getBalance_reserve_pipeline.
    cbn [negb andb]. by case_decide. }
  split.
  - unfold recheckUrlRoute. rewrite Hurl, Huser. cbn [negb orb]. cbv zeta.
    rewrite Hn. fold u. rewrite settle_done by lia.
    destruct (Z.ltb_spec (getBalance s u - cost) cost); [lia|].
    eexists. split; [reflexivity|]. split; [|split].
    + apply Hfinal, Hheld.
    + cbn [credit_tx deduct_pipeline]. by rewrite lookup_insert_eq.
    + cbn [credit_reservation deduct_pipeline release_pipeline].
      by rewrite lookup_delete_eq.
  - intros H2. unfold recheckIssueRoute. rewrite Hurl, Htype, Huser. cbn [negb orb].
    cbv zeta. rewrite H1. fold u. rewrite settle_done by lia.
    destruct (Z.ltb_spec (getBalance s u - 1) 1); [lia|].
    eexists. split; [reflexivity|].
    rewrite Hfinal; [lia | apply Hheld].
Qed.

Lemma x10_recheck_charges_the_cost_twice_witness :
  let s := (addCredits 0 "u" 10 "topup" empty_store).2 in
  let issues := [("i1", "title-tags"); ("i2", "page-speed"); ("i3", "readability")] in
  (truthy (Some "https://a.example") = true ∧ truthy (Some "u") = true
   ∧ 2 * ((Z.of_nat (length issues) + 1) / 2) ≤ getBalance s "u")
  ∧ ∃ s', recheckUrlRoute Redis.parsed_example 1 2 (Some "https://a.example")
            (Some issues) (Some "u")
            (Done tt) s = (Success tt, s')
      ∧ getBalance s' "u" = getBalance s "u" - 2 * 2.
Proof.
  set (s := (addCredits 0 "u" 10 "topup" empty_store).2).
  cbv zeta.
  assert (H1 : truthy (Some "https://a.example") = true) by reflexivity.
  assert (H2 : truthy (Some "title-tags") = true) by reflexivity.
  assert (H3 : truthy (Some "u") = true) by reflexivity.
  assert (H4 : 2 * ((Z.of_nat (length
      [("i1", "title-tags"); ("i2", "page-speed"); ("i3", "readability")]) + 1) / 2)
      ≤ getBalance s (default "" (Some "u"))) by (by vm_compute).
  split; [by repeat split|].
  destruct (proj1 (x10_recheck_charges_the_cost_twice Redis.parsed_example
                     1 2 "i1" _ _ _ _ s H1 H2 H3 H4))
    as (s' & Hr & Hb & _).
  exists s'. split; [exact Hr | exact Hb].
Defined.

(** X11. A recheck that throws gives the hold back to the user id as
    [hgetall] returns it. With the parameters present and a balance that
    covers the cost, both routes answer 500 with the message thrown, no
    transaction is written and no reservation is left under the operation
    id. When the client returns the user id as it was stored, every
    balance is as before; when it does not, the user has lost the cost
    and the user named by what the client returns has gained it. *)
Theorem x11_failed_recheck_refunds_the_parsed_user (parsed : string → string)
    (now1 now2 : Z) (issueId : string) (url type userId : option string)
    (issues : list (string * string)) (msg : string) (s : Store) :
  truthy url = true → truthy type = true → truthy userId = true →
  let u := default "" userId in
  let cost := (Z.of_nat (length issues) + 1) / 2 in
  cost ≤ getBalance s u →
  (∃ s', recheckUrlRoute parsed now1 now2 url (Some issues) userId (Thrown msg) s
         = (Failure 500 msg, s')
     ∧ (parsed u = u → ∀ v, getBalance s' v = getBalance s v)
     ∧ (parsed u ≠ u →
          getBalance s' u = getBalance s u - cost
          ∧ getBalance s' (parsed u) = getBalance s (parsed u) + cost)
     ∧ credit_tx s' = credit_tx s ∧ credit_history s' = credit_history s
     ∧ credit_reservation s' !! default "" url = None)
  ∧ (1 ≤ getBalance s u →
     ∃ s', recheckIssueRoute parsed now1 now2 issueId url type userId (Thrown msg) s
           = (Failure 500 msg, s')
       ∧ (parsed u = u → ∀ v, getBalance s' v = getBalance s v)
       ∧ (parsed u ≠ u →
            getBalance s' u = getBalance s u - 1
            ∧ getBalance s' (parsed u) = getBalance s (parsed u) + 1)
       ∧ credit_tx s' = credit_tx s ∧ credit_history s' = credit_history s
       ∧ credit_reservation s' !! issueId = None).
Proof.
  intros Hurl Htype Huser u cost Hbal.
  destruct (recheck_costs issues) as [H1 Hn]. fold cost in Hn.
  assert (Hsettle : ∀ c op reason, c ≤ getBalance s u →
    ∃ s', recheck_settle parsed now1 now2 u c op reason (Thrown msg) s
          = (Failure 500 msg, s')
      ∧ (parsed u = u → ∀ v, getBalance s' v = getBalance s v)
      ∧ (parsed u ≠ u →
           getBalance s' u = getBalance s u - c
           ∧ getBalance s' (parsed u) = getBalance s (parsed u) + c)
      ∧ credit_tx s' = credit_tx s ∧ credit_history s' = credit_history s
      ∧ credit_reservation s' !! op = None).
  { intros c op reason Hc.
    destruct (settle_work_thrown parsed now1 now2 u c op reason msg s Hc)
      as (s' & Hr & Hb & Htx & Hh & Hres).
    exists s'. split; [exact Hr|]. split; [|split; [|done]].
    - intros Hp v. rewrite Hb, Hp. case_decide; lia.
    - intros Hp. rewrite !Hb. split.
      + rewrite decide_True by done. rewrite decide_False by done. lia.
      + rewrite decide_False by done. rewrite decide_True by done. lia. }
  split.
  - unfold recheckUrlRoute. rewrite Hurl, Huser. cbn [negb orb]. cbv zeta.
    rewrite Hn. by apply Hsettle.
  - intros Hb1. unfold recheckIssueRoute. rewrite Hurl, Htype, Huser. cbn [negb orb].
    cbv zeta. rewrite H1. by apply Hsettle.
Qed.

Lemma x11_failed_recheck_refunds_the_parsed_user_witness :
  let s := (addCredits 0 "1e2" 10 "topup" empty_store).2 in
  (truthy (Some "https://a.example") = true ∧ truthy (Some "1e2") = true
   ∧ (Z.of_nat (length [("i1", "title-tags")]) + 1) / 2 ≤ getBalance s "1e2"
   ∧ Redis.parsed_example "1e2" ≠ "1e2")
  ∧ ∃ s', recheckUrlRoute Redis.parsed_example 1 2 (Some "https://a.example")
            (Some [("i1", "title-tags")]) (Some "1e2") (Thrown "Navigation timeout") s
          = (Failure 500 "Navigation timeout", s')
      ∧ getBalance s' "1e2" = getBalance s "1e2" - 1
      ∧ getBalance s' "100" = getBalance s "100" + 1.
Proof.
  set (s := (addCredits 0 "1e2" 10 "topup" empty_store).2).
  cbv zeta.
  assert (H1 : truthy (Some "https://a.example") = true) by reflexivity.
  assert (H2 : truthy (Some "title-tags") = true) by reflexivity.
  assert (H3 : truthy (Some "1e2") = true) by reflexivity.
  assert (H4 : (Z.of_nat (length [("i1", "title-tags")]) + 1) / 2
               ≤ getBalance s (default "" (Some "1e2"))) by (by vm_compute).
  assert (H5 : Redis.parsed_example "1e2" ≠ "1e2") by (by vm_compute).
  split; [by repeat split|].
  destruct (proj1 (x11_failed_recheck_refunds_the_parsed_user Redis.parsed_example
                     1 2 "i1" _ _ _ _ "Navigation timeout" s H1 H2 H3 H4))
    as (s' & Hr & _ & Hb & _).
  exists s'. split; [exact Hr|]. exact (Hb H5).
Defined.

(** X12. A balance that covers the cost once but not twice loses the
    cost and gets an error. With the parameters present, a positive cost
    and [cost <= balance < 2 * cost], a recheck that succeeds is answered
    500 "Reservation not found": the hold was kept, the deduction was
    refused, and the release that should give the hold back finds the
    record gone. The balance is lower by the cost and no transaction is
    written. On the single-issue route this is the balance 1. *)
Theorem x12_recheck_with_short_balance (parsed : string → string)
    (now1 now2 : Z) (issueId : string) (url type userId : option string)
    (issues : list (string * string)) (s : Store) :
  truthy url = true → truthy type = true → truthy userId = true →
  let u := default "" userId in
  let cost := (Z.of_nat (length issues) + 1) / 2 in
  cost ≤ getBalance s u < 2 * cost →
  (∃ s', recheckUrlRoute parsed now1 now2 url (Some issues) userId (Done tt) s
         = (Failure 500 "Reservation not found", s')
     ∧ getBalance s' u = getBalance s u - cost
     ∧ credit_tx s' = credit_tx s ∧ credit_history s' = credit_history s)
  ∧ (getBalance s u = 1 →
     ∃ s', recheckIssueRoute parsed now1 now2 issueId url type userId (Done tt) s
           = (Failure 500 "Reservation not found", s')
       ∧ getBalance s' u = 0
       ∧ credit_tx s' = credit_tx s ∧ credit_history s' = credit_history s).
Proof.
  intros Hurl Htype Huser u cost Hbal.
  destruct (recheck_costs issues) as [H1 Hn]. fold cost in Hn.
  assert (Hheld : ∀ c op, getBalance (release_pipeline op true
      {| rv_userId := u; rv_amount := c; rv_timestamp := now1 |}
      (reserve_pipeline now1 u c op s)) u = getBalance s u - c).
  { intros c op. rewrite getBalance_release_pipeline, getBalance_reserve_pipeline.
    cbn [negb andb]. by case_decide. }
  split.
  - unfold recheckUrlRoute. rewrite Hurl, Huser. cbn [negb orb]. cbv zeta.
    rewrite Hn. fold u. rewrite settle_done by lia.
    destruct (Z.ltb_spec (getBalance s u - cost) cost); [|lia].
    eexists. split; [reflexivity|]. split; [apply Hheld | done].
  - intros Hone. unfold recheckIssueRoute. rewrite Hurl, Htype, Huser. cbn [negb orb].
    cbv zeta. rewrite H1. fold u. rewrite settle_done by lia.
    destruct (Z.ltb_spec (getBalance s u - 1) 1); [|lia].
    eexists. split; [reflexivity|]. split; [rewrite Hheld; lia | done].
Qed.

Lemma x12_recheck_with_short_balance_witness :
  let s := (addCredits 0 "u" 3 "topup" empty_store).2 in
  let issues := [("i1", "title-tags"); ("i2", "page-speed"); ("i3", "readability")] in
  (truthy (Some "https://a.example") = true ∧ truthy (Some "u") = true
   ∧ (Z.of_nat (length issues) + 1) / 2 ≤ getBalance s "u"
     < 2 * ((Z.of_nat (length issues) + 1) / 2))
  ∧ ∃ s', recheckUrlRoute Redis.parsed_example 1 2 (Some "https://a.example")
            (Some issues) (Some "u")
            (Done tt) s = (Failure 500 "Reservation not found", s')
      ∧ getBalance s' "u" = getBalance s "u" - 2.
Proof.
  set (s := (addCredits 0 "u" 3 "topup" empty_store).2).
  cbv zeta.
  assert (H1 : truthy (Some "https://a.example") = true) by reflexivity.
  assert (H2 : truthy (Some "title-tags") = true) by reflexivity.
  assert (H3 : truthy (Some "u") = true) by reflexivity.
  assert (H4 : (Z.of_nat (length
      [("i1", "title-tags"); ("i2", "page-speed"); ("i3", "readability")]) + 1) / 2
      ≤ getBalance s (default "" (Some "u"))
      < 2 * ((Z.of_nat (length
      [("i1", "title-tags"); ("i2", "page-speed"); ("i3", "readability")]) + 1) / 2))
    by (by vm_compute).
  split; [by repeat split|].
  destruct (proj1 (x12_recheck_with_short_balance Redis.parsed_example
                     1 2 "i1" _ _ _ _ s H1 H2 H3 H4))
    as (s' & Hr & Hb & _).
  exists s'. split; [exact Hr | exact Hb].
Defined.

End RecheckRoutes.

Section CrawlCredits.
Import Credit Middleware Routes Crawler.










End CrawlCredits.

Section LedgerRoutes.
Import Credit Middleware Routes.

Lemma lrange_list_negative {A} (l : list A) (limit : Z) :
  limit < 0 →
  Redis.lrange_list l 0 (limit - 1) = take (length l - Z.to_nat (- limit)) l.
Proof.
  intros Hl. unfold Redis.lrange_list. cbv zeta.
  assert (H0 : (0 <? 0) = false) by done.
  assert (H1 : (limit - 1 <? 0) = true) by (apply Z.ltb_lt; lia).
  rewrite H0, H1, H0.
  destruct (Z.ltb_spec (Z.of_nat (length l) + (limit - 1)) 0) as [Hs|Hs]; cbn [orb].
  - replace (length l - Z.to_nat (- limit))%nat with 0%nat by lia. done.
  - destruct (Z.leb_spec (Z.of_nat (length l)) 0) as [Hlen|Hlen]; [lia|].
    destruct (Z.leb_spec (Z.of_nat (length l)) (Z.of_nat (length l) + (limit - 1)));
      [lia|].
    change (Z.to_nat 0) with 0%nat. rewrite drop_0. f_equal. lia.
Qed.

(** X17. What the transactions route returns for each limit in the
    query. A limit that does not parse, or 0, is taken as 10: the 10 most
    recent transactions at most. A limit of at least 1 gives that many at
    most. A negative limit [-k] gives every transaction of the user
    except the [k] oldest. In each case the ids come most recent first. *)
Theorem x17_transactions_route_limits
    (parsed : string → string) (u : string) (limit : option Z) (s : Store) :
  let h := default [] (credit_history s !! u) in
  ∃ l, transactionsRoute parsed u limit s = Success l
    ∧ l.*1 = match limit with
             | None | Some 0 => take 10 h
             | Some (Z.pos n) => take (Pos.to_nat n) h
             | Some (Z.neg k) => take (length h - Pos.to_nat k) h
             end.
Proof.
  intros h. unfold transactionsRoute. eexists. split; [reflexivity|].
  rewrite history_ids. unfold Redis.lrange. fold h.
  destruct limit as [[|n|k]|].
  - by rewrite lrange_list_prefix.
  - rewrite lrange_list_prefix by lia. done.
  - rewrite lrange_list_negative by lia. done.
  - by rewrite lrange_list_prefix.
Qed.

Lemma history_owned_push s s' u now tx :
  credit_tx s' = <[now := tx]> (credit_tx s) →
  credit_history s' = Redis.lpush u now (credit_history s) →
  tx_userId tx = u →
  (∀ w, now ∉ default [] (credit_history s !! w)) →
  history_owned s → history_owned s'.
Proof.
  intros Htx Hh Hu Hfresh Hown w i. rewrite Hh, Htx. unfold Redis.lpush.
  destruct (decide (u = w)) as [<-|Hw].
  - rewrite lookup_insert_eq. cbn [default]. intros [->|Hi]%elem_of_cons.
    + exists tx. by rewrite lookup_insert_eq.
    + rewrite lookup_insert_ne; [by apply Hown|].
      intros <-. by apply (Hfresh u).
  - rewrite lookup_insert_ne by done. intros Hi.
    rewrite lookup_insert_ne; [by apply Hown|].
    intros <-. by apply (Hfresh w).
Qed.

Lemma history_owned_exec (parsed : string → string) c s :
  (∀ w, c.1 ∉ default [] (credit_history s !! w)) →
  history_owned s → history_owned (exec parsed c s).
Proof.
  destruct c as [now [u a r|u a r|u a op|op ok]]; unfold exec; cbn [fst snd];
    intros Hfresh Hown.
  - by eapply (history_owned_push s _ u now).
  - unfold deductCredits. destruct (getBalance s u <? a); [done|].
    by eapply (history_owned_push s _ u now).
  - unfold reserveCredits. by destruct (getBalance s u <? a).
  - unfold releaseReservation. by destruct (credit_reservation s !! op).
Qed.

Lemma history_owned_run (parsed : string → string) cs s :
  NoDup cs.*1 →
  (∀ w i, i ∈ default [] (credit_history s !! w) → i ∉ cs.*1) →
  history_owned s → history_owned (run parsed cs s).
Proof.
  revert s. induction cs as [|c cs IH]; intros s Hnd Hfresh Hown; [done|].
  rewrite fmap_cons in Hnd. apply NoDup_cons in Hnd as [Hc1 Hnd].
  simpl. apply IH; [done | |].
  - intros w i Hi. apply history_exec in Hi as [->|Hi]; [done|].
    specialize (Hfresh _ _ Hi). rewrite fmap_cons, not_elem_of_cons in Hfresh. tauto.
  - apply history_owned_exec; [|done].
    intros w Hin. specialize (Hfresh _ _ Hin).
    rewrite fmap_cons, not_elem_of_cons in Hfresh. tauto.
Qed.

Lemma lrange_list_elem {A} (l : list A) (start stop : Z) (x : A) :
  x ∈ Redis.lrange_list l start stop → x ∈ l.
Proof.
  unfold Redis.lrange_list. cbv zeta.
  destruct (_ || _); [by intros ?%elem_of_nil|].
  intros H. by apply subseteq_take, subseteq_drop in H.
Qed.

(** X22. A user's history shows the user's own transactions. After any
    sequence of ledger calls from the empty store in which no two calls
    are made in the same millisecond, every entry GetTransactionHistory
    returns for a user, whatever the limit, carries a transaction: the one
    stored under its id, which was written for that user, as [hgetall]
    returns it. The user id the entry shows is therefore what the client
    makes of the user's id. *)
Theorem x22_history_shows_own_transactions (parsed : string → string)
    (cs : list (Z * Call)) (u : string) (limit : Z) (txId : Z)
    (entry : option Transaction) :
  NoDup cs.*1 →
  (txId, entry) ∈ getTransactionHistory parsed u limit (run parsed cs empty_store) →
  ∃ tx, credit_tx (run parsed cs empty_store) !! txId = Some tx
    ∧ tx_userId tx = u
    ∧ entry = Some (read_transaction parsed tx)
    ∧ tx_userId <$> entry = Some (parsed u).
Proof.
  intros Hnd Hin.
  assert (Hown : history_owned (run parsed cs empty_store)).
  { apply history_owned_run; [done | |].
    - intros w i. cbn [credit_history empty_store]. rewrite lookup_empty.
      by intros ?%elem_of_nil.
    - intros w i. cbn [credit_history empty_store]. rewrite lookup_empty.
      by intros ?%elem_of_nil. }
  unfold getTransactionHistory in Hin.
  destruct (Redis.lrange u 0 (limit - 1) (credit_history (run parsed cs empty_store)))
    as [|i l] eqn:Hl; [by apply elem_of_nil in Hin|].
  apply list_elem_of_fmap in Hin as (j & [= -> ->] & Hj).
  rewrite <- Hl in Hj. unfold Redis.lrange in Hj. apply lrange_list_elem in Hj.
  destruct (Hown u j Hj) as (tx & Htx & Hu). exists tx.
  rewrite Htx. cbn [fmap option_fmap option_map read_transaction tx_userId].
  by rewrite Hu.
Qed.

Lemma x22_history_shows_own_transactions_witness :
  let cs := [(1, AddCredits "1e2" 10 "topup"); (2, AddCredits "v" 5 "topup");
             (3, DeductCredits "1e2" 4 "crawl")] in
  let entry := Some {| tx_userId := "100"; tx_amount := -4; tx_type := TxDeduct;
                       tx_reason := "crawl"; tx_timestamp := 3 |} in
  NoDup cs.*1
  ∧ (3, entry) ∈ getTransactionHistory Redis.parsed_example "1e2" 5
                   (run Redis.parsed_example cs empty_store)
  ∧ ∃ tx, credit_tx (run Redis.parsed_example cs empty_store) !! 3 = Some tx
      ∧ tx_userId tx = "1e2"
      ∧ tx_userId <$> entry = Some (Redis.parsed_example "1e2").
Proof.
  cbv zeta.
  assert (H1 : NoDup [(1, AddCredits "1e2" 10 "topup"); (2, AddCredits "v" 5 "topup");
                      (3, DeductCredits "1e2" 4 "crawl")].*1)
    by (apply (bool_decide_unpack _); by vm_compute).
  assert (H2 : (3, Some {| tx_userId := "100"; tx_amount := -4; tx_type := TxDeduct;
                           tx_reason := "crawl"; tx_timestamp := 3 |})
               ∈ getTransactionHistory Redis.parsed_example "1e2" 5
                   (run Redis.parsed_example
                      [(1, AddCredits "1e2" 10 "topup"); (2, AddCredits "v" 5 "topup");
                       (3, DeductCredits "1e2" 4 "crawl")] empty_store))
    by (vm_compute; apply list_elem_of_here).
  split; [exact H1|]. split; [exact H2|].
  destruct (x22_history_shows_own_transactions Redis.parsed_example _ "1e2" 5 3 _ H1 H2)
    as (tx & Htx & Hu & _ & He).
  exists tx. split; [exact Htx|]. split; [exact Hu | exact He].
Defined.

(** X23. While no operation rounds, the crawl cost on natural numbers is
    never below one credit per page plus two per custom check, and it
    does not go down when the pages, the depth or the custom checks go up.
    Past that range the first fails: the cost of 2^54 pages with one
    custom check is 2^54. *)
Theorem x23_crawl_cost_bounds (p d c p' d' c' : nat) :
  let cost (p d c : nat) :=
    F64.calculateCrawlCost (Z.of_nat p) (Z.of_nat d) (Z.of_nat c) in
  (F64.exact (Z.of_nat p) (Z.of_nat d) (Z.of_nat c) →
     Z.of_nat p + 2 * Z.of_nat c ≤ cost p d c)
  ∧ (F64.exact (Z.of_nat p') (Z.of_nat d') (Z.of_nat c') →
     (p ≤ p')%nat → (d ≤ d')%nat → (c ≤ c')%nat → cost p d c ≤ cost p' d' c')
  ∧ (F64.calculateCrawlCost (2 ^ 54) 1 1 = 2 ^ 54
     ∧ F64.calculateCrawlCost (2 ^ 54) 1 1 < 2 ^ 54 + 2 * 1).
Proof.
  intros cost. unfold cost. split; [|split].
  - intros Hex. rewrite F64_calculateCrawlCost_closed by (lia || done).
    assert (H : Z.of_nat p ≤ (Z.of_nat p * (1 + Z.max 1 (Z.of_nat d)) + 1) / 2).
    { apply Z.div_le_lower_bound; [lia | nia]. }
    lia.
  - intros Hex Hp Hd Hc.
    assert (Hex0 : F64.exact (Z.of_nat p) (Z.of_nat d) (Z.of_nat c)).
    { destruct Hex as [H1 H2]. split; [lia|].
      assert (Z.of_nat p * (1 + Z.max 1 (Z.of_nat d))
              ≤ Z.of_nat p' * (1 + Z.max 1 (Z.of_nat d'))) by nia.
      lia. }
    rewrite !F64_calculateCrawlCost_closed by (lia || done).
    assert (H : (Z.of_nat p * (1 + Z.max 1 (Z.of_nat d)) + 1) / 2
                ≤ (Z.of_nat p' * (1 + Z.max 1 (Z.of_nat d')) + 1) / 2).
    { apply Z.div_le_mono; [lia | nia]. }
    lia.
  - split; by vm_compute.
Qed.

Lemma x23_crawl_cost_bounds_witness :
  F64.exact (Z.of_nat 4) (Z.of_nat 2) (Z.of_nat 1)
  ∧ (3 ≤ 4)%nat ∧ (2 ≤ 2)%nat ∧ (0 ≤ 1)%nat
  ∧ F64.calculateCrawlCost (Z.of_nat 3) (Z.of_nat 2) (Z.of_nat 0)
    ≤ F64.calculateCrawlCost (Z.of_nat 4) (Z.of_nat 2) (Z.of_nat 1).
Proof.
  assert (H0 : F64.exact (Z.of_nat 4) (Z.of_nat 2) (Z.of_nat 1))
    by (split; by vm_compute).
  assert (H1 : (3 ≤ 4)%nat) by lia.
  assert (H2 : (2 ≤ 2)%nat) by lia.
  assert (H3 : (0 ≤ 1)%nat) by lia.
  split; [exact H0|]. split; [exact H1|]. split; [exact H2|]. split; [exact H3|].
  exact (proj1 (proj2 (x23_crawl_cost_bounds 3 2 0 4 2 1)) H0 H1 H2 H3).
Defined.

End LedgerRoutes.

(** * Properties of the traversal *)

Section Traversal.
Import Middleware Routes Crawler.

Variable web : string → Try Page.

Lemma extends_refl st : extends st st.
Proof. by split. Qed.

Lemma extends_trans st1 st2 st3 : extends st1 st2 → extends st2 st3 → extends st1 st3.
Proof. intros [H1 H2] [H3 H4]. split; by etrans. Qed.

Lemma extends_push i st : extends st (push i st).
Proof. split; [done | by apply prefix_app_r]. Qed.

Lemma extends_seo_checks url title description st :
  extends st (seo_checks url title description st).
Proof.
  unfold seo_checks.
  destruct (negb (truthy (Some title)) || (String.length title <? 10)%nat);
    destruct (negb (truthy description));
    repeat (eapply extends_trans; [|apply extends_push]); apply extends_refl.
Qed.

Lemma visited_seo_checks url title description st :
  visitedUrls (seo_checks url title description st) = visitedUrls st.
Proof.
  unfold seo_checks.
  by destruct (negb (truthy (Some title)) || (String.length title <? 10)%nat);
    destruct (negb (truthy description)).
Qed.

Lemma crawlPage_extends depth url st : extends st (crawlPage web depth url st).
Proof.
  revert url st. induction depth as [|depth IH]; intros url st; [apply extends_refl|].
  cbn [crawlPage]. case_decide; [apply extends_refl|].
  destruct (web url) as [pg|msg]; [|apply extends_push].
  set (st1 := {| visitedUrls := {[url]} ∪ visitedUrls st; issues := issues st |}).
  assert (H1 : extends st st1) by (split; [apply union_subseteq_r | done]).
  apply (extends_trans _ st1); [exact H1|].
  destruct (pg_title pg) as [title|msg]; [|apply extends_push].
  apply (extends_trans _ (seo_checks url title (pg_description pg) st1));
    [apply extends_seo_checks|].
  generalize (seo_checks url title (pg_description pg) st1). intros st2.
  destruct depth as [|depth']; [apply extends_refl|].
  destruct (pg_links pg) as [links|msg]; [|apply extends_push].
  revert st2. induction links as [|link links IHl]; intros st2; [apply extends_refl|].
  cbn [fold_left].
  apply (extends_trans _ (if decide (link ∈ visitedUrls st2) then st2
                          else crawlPage web (S depth') link st2)); [|apply IHl].
  case_decide; [apply extends_refl | apply IH].
Qed.

Lemma crawlPage_reach depth url st x :
  x ∈ visitedUrls (crawlPage web depth url st) →
  x ∈ visitedUrls st
  ∨ (∃ n, (n < depth)%nat ∧ linked web n url x) ∧ ∃ pg, web x = Done pg.
Proof.
  revert x url st. induction depth as [|depth IH]; intros x url st; [by left|].
  cbn [crawlPage]. case_decide as Hv; [by left|].
  destruct (web url) as [pg|msg] eqn:Hweb; [|by left].
  set (st1 := {| visitedUrls := {[url]} ∪ visitedUrls st; issues := issues st |}).
  assert (Hst1 : ∀ y, y ∈ visitedUrls st1 →
    y ∈ visitedUrls st
    ∨ (∃ n, (n < S depth)%nat ∧ linked web n url y) ∧ ∃ pg, web y = Done pg).
  { intros y [->%elem_of_singleton|Hy]%elem_of_union; [|by left].
    right. split; [exists 0%nat; split; [lia | constructor] | by exists pg]. }
  destruct (pg_title pg) as [title|msg]; [|apply Hst1].
  assert (Hst2 : ∀ y, y ∈ visitedUrls (seo_checks url title (pg_description pg) st1) →
    y ∈ visitedUrls st
    ∨ (∃ n, (n < S depth)%nat ∧ linked web n url y) ∧ ∃ pg, web y = Done pg).
  { intros y. rewrite visited_seo_checks. apply Hst1. }
  revert Hst2. generalize (seo_checks url title (pg_description pg) st1).
  intros st2 Hst2.
  destruct depth as [|depth']; [apply Hst2|].
  destruct (pg_links pg) as [links|msg] eqn:Hlinks; [|apply Hst2].
  assert (Hloop : ∀ ls st', (∀ l, l ∈ ls → l ∈ links) →
    (∀ y, y ∈ visitedUrls st' →
       y ∈ visitedUrls st
       ∨ (∃ n, (n < S (S depth'))%nat ∧ linked web n url y) ∧ ∃ pg, web y = Done pg) →
    x ∈ visitedUrls (fold_left
      (fun st link => if decide (link ∈ visitedUrls st) then st
                      else crawlPage web (S depth') link st) ls st') →
    x ∈ visitedUrls st
    ∨ (∃ n, (n < S (S depth'))%nat ∧ linked web n url x) ∧ ∃ pg, web x = Done pg).
  { induction ls as [|l ls IHl]; intros st' Hsub Hst' Hx; [by apply Hst'|].
    cbn [fold_left] in Hx. revert Hx. apply IHl.
    - intros l' Hl'. apply Hsub. by right.
    - intros y Hy. case_decide; [by apply Hst'|].
      apply IH in Hy as [Hy|[(n & Hn & Hlk) Hpg]]; [by apply Hst'|].
      right. split; [|done]. exists (S n). split; [lia|].
      eapply linked_step; [exact Hweb | exact Hlinks | | exact Hlk].
      apply Hsub. by left. }
  by apply (Hloop links st2).
Qed.

(** X18. The traversal never goes deeper than asked and never loses
    track. After [crawlPage] at depth [d] the visited set contains the
    one before and the issues extend the ones before; every url newly
    visited is a page that loaded, reached from the root through fewer
    than [d] links of pages that loaded. *)
Theorem x18_crawl_stays_within_depth
    (depth : nat) (url : string) (st : CrawlState) :
  let st' := crawlPage web depth url st in
  visitedUrls st ⊆ visitedUrls st'
  ∧ issues st `prefix_of` issues st'
  ∧ (∀ x, x ∈ visitedUrls st' → x ∉ visitedUrls st →
       (∃ n, (n < depth)%nat ∧ linked web n url x) ∧ ∃ pg, web x = Done pg).
Proof.
  intros st'. destruct (crawlPage_extends depth url st) as [H1 H2].
  split; [exact H1|]. split; [exact H2|].
  intros x Hx Hnx. by apply crawlPage_reach in Hx as [Hx|Hx].
Qed.

(** X19. The service remembers what it visited. At a depth of one or
    more the root is in the visited set afterwards exactly when it was
    there before or its page loads; and once it is there, crawling it
    again, at any depth, changes nothing: no page is loaded and no issue
    is added. *)
Theorem x19_second_crawl_does_nothing
    (depth depth' : nat) (url : string) (st : CrawlState) :
  let st' := crawlPage web (S depth) url st in
  (url ∈ visitedUrls st' ↔ url ∈ visitedUrls st ∨ ∃ pg, web url = Done pg)
  ∧ (url ∈ visitedUrls st' → crawlPage web depth' url st' = st').
Proof.
  intros st'. split; [split|].
  - intros Hx. destruct (decide (url ∈ visitedUrls st)) as [|Hn]; [by left|].
    right. apply crawlPage_reach in Hx as [Hx|[_ Hpg]]; [done | exact Hpg].
  - intros [Hv|[pg Hpg]].
    + by apply (proj1 (crawlPage_extends (S depth) url st)).
    + unfold st'. cbn [crawlPage]. case_decide as Hv; [done|]. rewrite Hpg.
      set (st1 := {| visitedUrls := {[url]} ∪ visitedUrls st; issues := issues st |}).
      assert (H1 : url ∈ visitedUrls st1) by (apply elem_of_union_l, elem_of_singleton; done).
      destruct (pg_title pg) as [title|msg]; [|exact H1].
      assert (H2 : url ∈ visitedUrls (seo_checks url title (pg_description pg) st1))
        by (by rewrite visited_seo_checks).
      revert H2. generalize (seo_checks url title (pg_description pg) st1).
      intros st2 H2.
      destruct depth as [|d]; [exact H2|].
      destruct (pg_links pg) as [links|msg]; [|exact H2].
      revert st2 H2. induction links as [|l ls IHl]; intros st2 H2; [exact H2|].
      cbn [fold_left]. apply IHl. case_decide; [exact H2|].
      by apply (proj1 (crawlPage_extends (S d) l st2)).
  - intros Hv. destruct depth' as [|d]; [done|].
    cbn [crawlPage]. by rewrite decide_True.
Qed.

End Traversal.

Section TraversalWitnesses.
Import Middleware Routes Crawler.

Lemma x18_crawl_stays_within_depth_witness :
  let web := fun url : string =>
    if String.eqb url "a"
    then Done {| pg_title := Done "The home page"; pg_description := Some "home";
                 pg_links := Done ["b"] |}
    else if String.eqb url "b"
    then Done {| pg_title := Done "short"; pg_description := None;
                 pg_links := Done ["c"] |}
    else Thrown "net::ERR_NAME_NOT_RESOLVED" in
  let st := {| visitedUrls := ∅; issues := [] |} in
  ("b" ∈ visitedUrls (crawlPage web 2 "a" st) ∧ "b" ∉ visitedUrls st)
  ∧ (∃ n, (n < 2)%nat ∧ linked web n "a" "b") ∧ ∃ pg, web "b" = Done pg.
Proof.
  cbv zeta.
  set (web := fun url : string =>
    if String.eqb url "a"
    then Done {| pg_title := Done "The home page"; pg_description := Some "home";
                 pg_links := Done ["b"] |}
    else if String.eqb url "b"
    then Done {| pg_title := Done "short"; pg_description := None;
                 pg_links := Done ["c"] |}
    else Thrown "net::ERR_NAME_NOT_RESOLVED").
  set (st := {| visitedUrls := ∅; issues := [] |}).
  assert (H1 : "b" ∈ visitedUrls (crawlPage web 2 "a" st))
    by (apply (bool_decide_unpack _); by vm_compute).
  assert (H2 : "b" ∉ visitedUrls st) by (apply (bool_decide_unpack _); by vm_compute).
  split; [by split|].
  exact (proj2 (proj2 (x18_crawl_stays_within_depth web 2 "a" st)) "b" H1 H2).
Defined.

Lemma x19_second_crawl_does_nothing_witness :
  let web := fun url : string =>
    if String.eqb url "a"
    then Done {| pg_title := Done "The home page"; pg_description := Some "home";
                 pg_links := Done ["b"] |}
    else Thrown "net::ERR_NAME_NOT_RESOLVED" in
  let st := {| visitedUrls := ∅; issues := [] |} in
  let st' := crawlPage web 2 "a" st in
  "a" ∈ visitedUrls st' ∧ crawlPage web 3 "a" st' = st'.
Proof.
  cbv zeta.
  set (web := fun url : string =>
    if String.eqb url "a"
    then Done {| pg_title := Done "The home page"; pg_description := Some "home";
                 pg_links := Done ["b"] |}
    else Thrown "net::ERR_NAME_NOT_RESOLVED").
  set (st := {| visitedUrls := ∅; issues := [] |}).
  assert (H1 : "a" ∈ visitedUrls (crawlPage web 2 "a" st))
    by (apply (bool_decide_unpack _); by vm_compute).
  split; [exact H1|].
  exact (proj2 (x19_second_crawl_does_nothing web 1 3 "a" st) H1).
Defined.

End TraversalWitnesses.

(** * Properties of the summary sent with a crawl *)

Section Summary.
Import Routes Webhook.

Lemma weight_number sev :
  prototype_member sev = false → ∃ w, weight sev = Num w ∧ 1 ≤ w ≤ 5.
Proof.
  intros Hp. unfold weight. rewrite Hp.
  repeat destruct (String.eqb _ _); eexists; (split; [reflexivity | lia]).
Qed.

Lemma weight_prototype sev : prototype_member sev = true → weight sev = NotNum.
Proof.
  intros Hp. unfold weight. rewrite Hp.
  repeat match goal with
         | |- context [String.eqb sev ?x] =>
             destruct (String.eqb_spec sev x) as [->|_]; [by vm_compute in Hp|]
         end.
  done.
Qed.

Lemma weightedSum_range (l : list string) (a : Z) :
  Forall (fun sev => prototype_member sev = false) l →
  ∃ w, fold_left (fun sum sev => plus sum (weight sev)) l (Num a) = Num w
    ∧ a + Z.of_nat (length l) ≤ w ≤ a + 5 * Z.of_nat (length l).
Proof.
  intros Hl. revert a. induction Hl as [|sev l Hsev _ IH]; intros a.
  { exists a. simpl. split; [done | lia]. }
  cbn [fold_left]. destruct (weight_number sev Hsev) as (w & -> & Hw).
  cbn [plus]. destruct (IH (a + w)) as (w' & -> & Hw').
  exists w'. split; [done|]. rewrite length_cons. lia.
Qed.

Lemma weightedSum_not_number (l : list string) :
  fold_left (fun sum sev => plus sum (weight sev)) l NotNum = NotNum.
Proof. induction l as [|sev l IH]; [done | exact IH]. Qed.

Lemma weightedSum_prototype (l : list string) (v : Value) :
  Exists (fun sev => prototype_member sev = true) l →
  fold_left (fun sum sev => plus sum (weight sev)) l v = NotNum.
Proof.
  intros Hl. revert v. induction Hl as [sev l Hsev|sev l _ IH]; intros v.
  - cbn [fold_left]. rewrite (weight_prototype sev Hsev).
    replace (plus v NotNum) with NotNum by (by destruct v).
    apply weightedSum_not_number.
  - cbn [fold_left]. apply IH.
Qed.

(** X20. The health score of a crawl whose severities are none of the
    names of [Object.prototype] lies between 50 and 100: it is 100 when
    there is no issue and at most 90 when there is one; the clamp to 0
    never applies. One issue whose severity is such a name ("constructor",
    "toString", ...) makes the score [NaN]. On a result without [issues]
    the function throws. *)
Theorem x20_health_score_range (severities : list string) :
  (Forall (fun sev => prototype_member sev = false) severities →
     ∃ q, calculateHealthScore (Some severities) = Done (Finite q)
       ∧ (50 <= q <= 100)%Q
       ∧ (severities = [] → (q == 100)%Q)
       ∧ (severities ≠ [] → (q <= 90)%Q))
  ∧ (Exists (fun sev => prototype_member sev = true) severities →
       calculateHealthScore (Some severities) = Done NaN)
  ∧ calculateHealthScore None = Thrown undefined_length_message.
Proof.
  split; [|split; [|reflexivity]].
  - intros Hl. unfold calculateHealthScore. cbv zeta.
    destruct severities as [|sev l].
    { exists 100%Q. simpl. repeat split; try done; lra. }
    set (n := Z.of_nat (length (sev :: l))).
    assert (Hn : 0 < n) by (unfold n; rewrite length_cons; lia).
    destruct (weightedSum_range (sev :: l) 0 Hl) as (w & -> & Hw). fold n in Hw.
    destruct (Z.eqb_spec n 0); [lia|].
    eexists. split; [reflexivity|].
    assert (Hq : (1 <= inject_Z w / inject_Z n <= 5)%Q).
    { assert (Hn' : (0 < inject_Z n)%Q) by (rewrite <- (Zlt_Qlt 0); lia).
      split.
      - apply Qle_shift_div_l; [done|]. rewrite Qmult_1_l. rewrite <- Zle_Qle. lia.
      - apply Qle_shift_div_r; [done|]. rewrite <- (inject_Z_mult 5), <- Zle_Qle. lia. }
    set (q := (inject_Z w / inject_Z n)%Q) in *.
    assert (H1 : (Qmin 100 (100 - q * 10) == 100 - q * 10)%Q) by (apply Q.min_r; lra).
    assert (H2 : (Qmax 0 (Qmin 100 (100 - q * 10)) == 100 - q * 10)%Q).
    { rewrite H1. apply Q.max_r. lra. }
    rewrite H2. repeat split; try done; lra.
  - intros Hl. unfold calculateHealthScore. cbv zeta.
    destruct severities as [|sev l]; [by apply Exists_nil in Hl|].
    destruct (Z.eqb_spec (Z.of_nat (length (sev :: l))) 0) as [H0|_];
      [rewrite length_cons in H0; lia|].
    by rewrite (weightedSum_prototype (sev :: l) (Num 0) Hl).
Qed.

Lemma x20_health_score_range_witness :
  Exists (fun sev => prototype_member sev = true) ["high"; "constructor"]
  ∧ calculateHealthScore (Some ["high"; "constructor"]) = Done NaN.
Proof.
  assert (H : Exists (fun sev => prototype_member sev = true) ["high"; "constructor"])
    by (apply Exists_cons_tl, Exists_cons_hd; reflexivity).
  split; [exact H|].
  exact (proj1 (proj2 (x20_health_score_range ["high"; "constructor"])) H).
Defined.

Lemma count_step_proto (keys : list string) (acc : gmap string Value) :
  fold_left count_step keys acc !! "__proto__" = acc !! "__proto__".
Proof.
  revert acc. induction keys as [|x keys IH]; intros acc; [done|].
  cbn [fold_left]. rewrite IH. unfold count_step.
  destruct (String.eqb_spec x "__proto__") as [_|Hx]; [done|].
  by rewrite lookup_insert_ne.
Qed.

Lemma count_by_acc (keys : list string) (acc : gmap string Value) (k : string) :
  k ≠ "__proto__" →
  found (fold_left count_step keys acc) k
  = Nat.iter (length (filter (fun x => x = k) keys)) (fun v => plus v (Num 1))
      (found acc k)
  ∧ (is_Some (fold_left count_step keys acc !! k) ↔ is_Some (acc !! k) ∨ k ∈ keys).
Proof.
  intros Hk. revert acc. induction keys as [|x keys IH]; intros acc.
  { cbn [fold_left filter]. split; [done|].
    split; [by left | intros [H|H%elem_of_nil]; done]. }
  cbn [fold_left]. destruct (IH (count_step acc x)) as [IH1 IH2].
  rewrite IH1, IH2. unfold count_step.
  destruct (String.eqb_spec x "__proto__") as [->|Hx].
  - rewrite filter_cons_False by done. split; [done|].
    rewrite elem_of_cons. split; [tauto|]. intros [H|[->|H]]; tauto.
  - destruct (decide (x = k)) as [->|Hxk].
    + rewrite filter_cons_True by done. cbn [length]. rewrite Nat.iter_succ_r.
      split.
      * f_equal. unfold found at 1. by rewrite lookup_insert_eq.
      * rewrite lookup_insert_eq.
        split; [intros _; right; by left | intros _; left; by eexists].
    + rewrite filter_cons_False by done. split.
      * f_equal. unfold found. by rewrite lookup_insert_ne.
      * rewrite lookup_insert_ne by done. rewrite elem_of_cons.
        split; [tauto|]. intros [H|[->|H]]; tauto.
Qed.

(** X21. The counts sent with a crawl. Under a severity, or a type, that
    is none of the names of [Object.prototype], the summary holds the
    number of issues that carry it. Under such a name it holds a text in
    place of the count, and under [__proto__] nothing at all. It holds an
    entry only for what occurs. *)
Theorem x21_summary_counts (keys : list string) (k : string) :
  (k ∉ keys → count_by keys !! k = None)
  ∧ (k ∈ keys → prototype_member k = false →
       count_by keys !! k
       = Some (Num (Z.of_nat (length (filter (fun x => x = k) keys)))))
  ∧ (k ∈ keys → prototype_member k = true → k ≠ "__proto__" →
       count_by keys !! k = Some NotNum)
  ∧ count_by keys !! "__proto__" = None.
Proof.
  assert (Hproto : count_by keys !! "__proto__" = None)
    by (unfold count_by; by rewrite count_step_proto).
  assert (Hsome : ∀ m : gmap string Value, is_Some (m !! k) → m !! k = Some (found m k)).
  { intros m [v Hv]. unfold found. by rewrite Hv. }
  assert (Hnum : ∀ n, Nat.iter n (fun v => plus v (Num 1)) (Num 0) = Num (Z.of_nat n)).
  { induction n as [|n IHn]; [done|]. rewrite Nat.iter_succ, IHn. cbn [plus].
    f_equal. lia. }
  assert (Htext : ∀ n, Nat.iter (S n) (fun v => plus v (Num 1)) NotNum = NotNum).
  { induction n as [|n IHn]; [done|]. by rewrite Nat.iter_succ, IHn. }
  split; [|split; [|split; [|exact Hproto]]].
  - intros Hnot. destruct (decide (k = "__proto__")) as [->|Hk]; [exact Hproto|].
    destruct (count_by_acc keys ∅ k Hk) as [_ H2]. fold (count_by keys) in H2.
    destruct (count_by keys !! k) as [v|] eqn:Hv; [|done].
    destruct (proj1 H2 (ltac:(by eexists))) as [[? H]|H]; [|done].
    by rewrite lookup_empty in H.
  - intros Hin Hp.
    assert (Hk : k ≠ "__proto__") by (intros ->; by vm_compute in Hp).
    destruct (count_by_acc keys ∅ k Hk) as [H1 H2]. fold (count_by keys) in H1, H2.
    rewrite Hsome by (apply H2; by right). rewrite H1.
    unfold found. rewrite lookup_empty, Hp. by rewrite Hnum.
  - intros Hin Hp Hk.
    destruct (count_by_acc keys ∅ k Hk) as [H1 H2]. fold (count_by keys) in H1, H2.
    rewrite Hsome by (apply H2; by right). rewrite H1.
    unfold found. rewrite lookup_empty, Hp.
    assert (Hpos : ∃ n, length (filter (fun x => x = k) keys) = S n).
    { destruct (filter (fun x => x = k) keys) as [|y l] eqn:Hf; [|by eexists].
      assert (Hkin : k ∈ filter (fun x => x = k) keys) by (by apply list_elem_of_filter).
      rewrite Hf in Hkin. by apply elem_of_nil in Hkin. }
    destruct Hpos as [n ->]. by rewrite Htext.
Qed.

Lemma x21_summary_counts_witness :
  "constructor" ∈ ["high"; "constructor"; "high"]
  ∧ count_by ["high"; "constructor"; "high"] !! "high" = Some (Num 2)
  ∧ count_by ["high"; "constructor"; "high"] !! "constructor" = Some NotNum.
Proof.
  assert (H1 : "high" ∈ ["high"; "constructor"; "high"]) by apply list_elem_of_here.
  assert (H2 : "constructor" ∈ ["high"; "constructor"; "high"])
    by apply list_elem_of_further, list_elem_of_here.
  assert (H3 : "constructor" ≠ "__proto__") by done.
  split; [exact H2|].
  destruct (x21_summary_counts ["high"; "constructor"; "high"] "high")
    as (_ & Hn & _).
  destruct (x21_summary_counts ["high"; "constructor"; "high"] "constructor")
    as (_ & _ & Ht & _).
  split; [exact (Hn H1 eq_refl) | exact (Ht H2 eq_refl H3)].
Defined.

End Summary.
